(** * kv/transport.go: the replica-dispatch transport

    A shallow embedding of [kv/transport.go]: the gRPC transport
    ([grpcTransportFactory], [grpcTransport.IsExhausted], [SendNext],
    [TryNext]), the health partitioner ([splitHealthy], [byHealth]) and the
    sender-backed test transport ([senderTransport]).

    Slices are lists.  The two slice headers of a [grpcTransport] share one
    backing array, but after construction no element of that array is ever
    written: [SendNext] only re-slices, and [TryNext] builds its results in
    freshly allocated slices.  Immutable lists are therefore exact.

    Methods with a pointer receiver are state transformers in a small
    state-and-panic monad.  The result channel is a queue, and a [go]
    statement adds a pending goroutine to the world.  Of the logging and
    tracing calls only [log.Error] is kept, as the one trace the goroutine's
    verification loop leaves. *)

From Stdlib Require Import ZArith String Bool Lia.
From stdpp Require Import base list sorting.

Open Scope string_scope.
Open Scope Z_scope.
Open Scope list_scope.
Open Scope nat_scope.

(** ** roachpb.ReplicaDescriptor

    The struct is declared in roachpb (metadata.proto): three int32 fields.
    Go's [==] on it compares all three. *)

Record ReplicaDescriptor : Type := mkReplicaDescriptor {
  NodeID : Z;
  StoreID : Z;
  ReplicaID : Z
}.

Definition ReplicaDescriptor_eqb (a b : ReplicaDescriptor) : bool :=
  (NodeID a =? NodeID b)%Z && (StoreID a =? StoreID b)%Z
  && (ReplicaID a =? ReplicaID b)%Z.

(** ** Errors

    [errors.New], [errors.Errorf] and [errors.Wrap] of github.com/pkg/errors,
    and the sentinel [circuit.ErrBreakerOpen].  [errors_Cause] follows the
    chain of wrapped errors down to the root. *)

Inductive error : Type :=
  | circuit_ErrBreakerOpen
  | errors_New (msg : string)
  | errors_Errorf (format : string) (arg : ReplicaDescriptor)
  | errors_Wrap (cause : error) (msg : string).

Fixpoint errors_Cause (err : error) : error :=
  match err with
  | errors_Wrap cause _ => errors_Cause cause
  | _ => err
  end.

Fixpoint error_eqb (a b : error) : bool :=
  match a, b with
  | circuit_ErrBreakerOpen, circuit_ErrBreakerOpen => true
  | errors_New m, errors_New n => String.eqb m n
  | errors_Errorf f r, errors_Errorf g s =>
      String.eqb f g && ReplicaDescriptor_eqb r s
  | errors_Wrap c m, errors_Wrap d n => error_eqb c d && String.eqb m n
  | _, _ => false
  end.

(** ** The state-and-panic monad *)

Inductive PanicValue : Type :=
  | IndexOutOfRange
  | NilDereference
  | PanicString (msg : string)
  | ErrorUnexpectedlySet.

Inductive Res (A : Type) : Type :=
  | Ok (a : A)
  | Panic (p : PanicValue).
Arguments Ok {A} a.
Arguments Panic {A} p.

Definition M (S A : Type) : Type := S -> Res (A * S).

Definition ret {S A} (a : A) : M S A := fun s => Ok (a, s).

Definition bind {S A B} (m : M S A) (k : A -> M S B) : M S B :=
  fun s => match m s with
           | Ok (a, s') => k a s'
           | Panic p => Panic p
           end.

Definition get {S} : M S S := fun s => Ok (s, s).
Definition put {S} (s : S) : M S unit := fun _ => Ok (tt, s).
Definition modify {S} (f : S -> S) : M S unit := fun s => Ok (tt, f s).
Definition panic {S A} (p : PanicValue) : M S A := fun _ => Panic p.

Declare Scope go_scope.
Delimit Scope go_scope with go.
Notation "x <- m ;; k" := (bind m (fun x => k))
  (at level 100, m at next level, right associativity) : go_scope.
Notation "m ;;; k" := (bind m (fun _ => k))
  (at level 100, right associativity) : go_scope.

(** ** Package sort

    [sort.Interface] and [sort.Stable] belong to Go's standard library.
    [Stable] is modelled by [insertionSort] driven through the interface
    methods: it is the library's own routine for slices of up to twenty
    elements.  For longer ones the library merges sorted blocks, in a way
    that has changed between releases; what it documents is that the sort is
    stable, and a stable sort has a single possible result
    ([sort_Stable_unique] below). *)

Module sort.

Class Interface (T : Type) : Type := {
  Len : T -> nat;
  Less : T -> nat -> nat -> bool;
  Swap : T -> nat -> nat -> T
}.

(** [for j := i; j > a && data.Less(j, j-1); j-- { data.Swap(j, j-1) }] *)
Fixpoint insertionSort_inner {T} `{Interface T} (data : T) (a j : nat) : T :=
  match j with
  | O => data
  | S j' =>
      if (a <? j) && Less data j j'
      then insertionSort_inner (Swap data j j') a j'
      else data
  end.

(** [for i := a + 1; i < b; i++ { ... }], with [n] iterations to go. *)
Fixpoint insertionSort_outer {T} `{Interface T}
    (data : T) (a i n : nat) : T :=
  match n with
  | O => data
  | S n' => insertionSort_outer (insertionSort_inner data a i) a (S i) n'
  end.

Definition insertionSort {T} `{Interface T} (data : T) (a b : nat) : T :=
  insertionSort_outer data a (a + 1) (b - (a + 1)).

Definition Stable {T} `{Interface T} (data : T) : T :=
  insertionSort data 0 (Len data).

End sort.

(** ** Contexts, roachpb.Error *)

Inductive context_Context : Type :=
  | context_Background
  | context_WithTimeout (parent : context_Context) (timeout : Z).

(** [*roachpb.Error], the error a batch response embeds. *)
Record roachpb_Error : Type := mk_roachpb_Error { message : string }.

(** A SendOptions structure describes the algorithm for sending RPCs to
    one or more replicas.  (The [transportFactory] field plays no part in
    the transports themselves.) *)
Record SendOptions : Type := mkSendOptions {
  so_Context : context_Context;
  SendNextTimeout : Z;
  Timeout : Z
}.

Definition contextWithTimeout (so : SendOptions) : context_Context :=
  if negb (Timeout so =? 0)%Z
  then context_WithTimeout (so_Context so) (Timeout so)
  else so_Context so.

(** A replica of the slice handed to the factory:
    [replica.ReplicaDescriptor] and [replica.NodeDesc.Address.String()]. *)
Record NodeDescriptor : Type := mkNodeDescriptor { Address : string }.

Record ReplicaInfo : Type := mkReplicaInfo {
  ReplicaInfo_ReplicaDescriptor : ReplicaDescriptor;
  NodeDesc : NodeDescriptor
}.

Definition ReplicaSlice : Type := list ReplicaInfo.

Section Transport.

(** The request and response unions of roachpb and the gRPC connection are
    opaque to this file, and so are the checksum verification of a response
    against its request ([GetInner().Verify(...GetInner())]), the client stub
    constructor and the environment flag read at start-up. *)
Context {RequestUnion ResponseUnion ClientConn : Type}.
Variable Verify : ResponseUnion -> RequestUnion -> option error.

Record BatchRequest : Type := mkBatchRequest {
  Replica : ReplicaDescriptor;
  Requests : list RequestUnion
}.

Record BatchResponse : Type := mkBatchResponse {
  Error : option roachpb_Error;
  Responses : list ResponseUnion
}.

(** [roachpb.InternalClient], [roachpb.InternalServer] and [client.Sender]:
    each interface has the one method used here. *)
Record InternalClient : Type := mkInternalClient {
  InternalClient_Batch :
    context_Context -> BatchRequest -> option BatchResponse * option error
}.

Record InternalServer : Type := mkInternalServer {
  InternalServer_Batch :
    context_Context -> BatchRequest -> option BatchResponse * option error
}.

Record Sender : Type := mkSender {
  Send :
    context_Context -> BatchRequest
    -> option BatchResponse * option roachpb_Error
}.

Variable NewInternalClient : option ClientConn -> InternalClient.

(** Allow local calls to be dispatched directly to the local server without
    sending an RPC. *)
Variable enableLocalCalls : bool.

(** The methods of [*rpc.Context] the transport calls. *)
Record rpc_Context : Type := mk_rpc_Context {
  GRPCDial : string -> option ClientConn * option error;
  IsConnHealthy : string -> bool;
  GetLocalInternalServerForAddr : string -> option InternalServer
}.

Record batchClient : Type := mkBatchClient {
  remoteAddr : string;
  conn : option ClientConn;
  client : option InternalClient;
  args : BatchRequest;
  healthy : bool
}.

(** The zero value, as [make] fills a slice with. *)
Definition batchClient_zero : batchClient :=
  {| remoteAddr := ""; conn := None; client := None;
     args := {| Replica := mkReplicaDescriptor 0 0 0; Requests := [] |};
     healthy := false |}.

(** BatchCall contains a response and an RPC error. *)
Record BatchCall : Type := mkBatchCall {
  Reply : option BatchResponse;
  Err : option error
}.

(** ** The world a transport runs in *)

(** The function literal of [SendNext]'s [go] statement, with the variables
    it captures. *)
Inductive goroutine : Type :=
  | go_SendNext (opts : SendOptions) (client : batchClient).

Record World (T : Type) : Type := mkWorld {
  self : T;
  chan_done : list BatchCall;
  goroutines : list goroutine;
  error_log : list error
}.
Arguments mkWorld {T}.
Arguments self {T}.
Arguments chan_done {T}.
Arguments goroutines {T}.
Arguments error_log {T}.

Definition get_self {T} : M (World T) T := fun w => Ok (self w, w).

Definition set_self {T} (t : T) : M (World T) unit :=
  modify (fun w => mkWorld t (chan_done w) (goroutines w) (error_log w)).

(** [done <- call] on a channel that has room. *)
Definition chan_send {T} (call : BatchCall) : M (World T) unit :=
  modify (fun w =>
    mkWorld (self w) (chan_done w ++ [call]) (goroutines w) (error_log w)).

(** [go func() { ... }()] *)
Definition go {T} (g : goroutine) : M (World T) unit :=
  modify (fun w =>
    mkWorld (self w) (chan_done w) (goroutines w ++ [g]) (error_log w)).

(** [log.Error(ctx, err)] *)
Definition log_Error {T} (err : error) : M (World T) unit :=
  modify (fun w =>
    mkWorld (self w) (chan_done w) (goroutines w) (error_log w ++ [err])).

(** ** The health partitioner *)

(** byHealth sorts a slice of batchClients by their health with healthy
    first.  Indexing out of range panics in Go; [insertionSort] never does
    it, and the methods leave the slice alone there. *)
#[export] Instance byHealth : sort.Interface (list batchClient) := {|
  sort.Len h := length h;
  sort.Swap h i j :=
    match h !! i, h !! j with
    | Some hi, Some hj => <[j:=hi]> (<[i:=hj]> h)
    | _, _ => h
    end;
  sort.Less h i j :=
    match h !! i, h !! j with
    | Some hi, Some hj => healthy hi && negb (healthy hj)
    | _, _ => false
    end
|}.

(** splitHealthy splits the provided client slice into healthy clients and
    unhealthy clients.  The slice is rearranged in place; the model returns
    the rearranged slice together with the number of healthy clients. *)
Definition splitHealthy (clients : list batchClient)
  : list batchClient * nat :=
  let clients := sort.Stable clients in
  let nHealthy :=
    fold_left (fun nHealthy client =>
                 if healthy client then S nHealthy else nHealthy)
              clients 0 in
  (clients, nHealthy).

(** ** grpcTransport *)

Record grpcTransport : Type := mkGrpcTransport {
  opts : SendOptions;
  rpcContext : rpc_Context;
  orderedClients : list batchClient;
  allOrderedClients : list batchClient
}.

Definition set_orderedClients (oc : list batchClient) (gt : grpcTransport)
  : grpcTransport :=
  mkGrpcTransport (opts gt) (rpcContext gt) oc (allOrderedClients gt).

(** The body of [for _, replica := range replicas] in the factory, with the
    clients appended so far.  [inr err] stands for [return nil, err]. *)
Fixpoint grpcTransportFactory_range (rpcContext : rpc_Context)
    (args : BatchRequest) (replicas : ReplicaSlice)
    (clients : list batchClient) : list batchClient + error :=
  match replicas with
  | [] => inl clients
  | replica :: replicas =>
      let '(conn, err) := GRPCDial rpcContext (Address (NodeDesc replica)) in
      match err with
      | Some err =>
          if error_eqb (errors_Cause err) circuit_ErrBreakerOpen
          then grpcTransportFactory_range rpcContext args replicas clients
          else inr err
      | None =>
          let argsCopy :=
            mkBatchRequest (ReplicaInfo_ReplicaDescriptor replica)
                           (Requests args) in
          let remoteAddr := Address (NodeDesc replica) in
          grpcTransportFactory_range rpcContext args replicas
            (clients ++ [ {| remoteAddr := remoteAddr;
                             conn := conn;
                             client := Some (NewInternalClient conn);
                             args := argsCopy;
                             healthy := IsConnHealthy rpcContext remoteAddr |} ])
      end
  end.

(** grpcTransportFactory is the default TransportFactory, using GRPC. *)
Definition grpcTransportFactory (opts : SendOptions)
    (rpcContext : rpc_Context) (replicas : ReplicaSlice)
    (args : BatchRequest) : option grpcTransport * option error :=
  match grpcTransportFactory_range rpcContext args replicas [] with
  | inr err => (None, Some err)
  | inl clients =>
      (* Put known-unhealthy clients last. *)
      let clients := fst (splitHealthy clients) in
      (Some {| opts := opts;
               rpcContext := rpcContext;
               orderedClients := clients;
               allOrderedClients := clients |}, None)
  end.

Definition grpcTransport_IsExhausted : M (World grpcTransport) bool :=
  (gt <- get_self ;;
   ret (length (orderedClients gt) =? 0))%go.

(** The loop of the goroutine over [reply.Responses], at index [i]:
    [client.args.Requests[i]] panics when the index is out of range, and a
    verification error is only logged. *)
Fixpoint verify_range {T} (i : nat) (responses : list ResponseUnion)
    (requests : list RequestUnion) : M (World T) unit :=
  match responses with
  | [] => ret tt
  | response :: responses =>
      match requests !! i with
      | None => panic IndexOutOfRange
      | Some request =>
          (match Verify response request with
           | Some err => log_Error err
           | None => ret tt
           end ;;;
           verify_range (S i) responses requests)%go
      end
  end.

(** The body of the goroutine [SendNext] starts. *)
Definition run_goroutine {T} (g : goroutine) : M (World T) unit :=
  match g with
  | go_SendNext opts c =>
      let ctx := contextWithTimeout opts in
      match client c with
      | None => panic NilDereference
      | Some stub =>
          let '(reply, err) := InternalClient_Batch stub ctx (args c) in
          (match reply with
           | Some reply =>
               verify_range 0 (Responses reply) (Requests (args c))
           | None => ret tt
           end ;;;
           chan_send {| Reply := reply; Err := err |})%go
      end
  end.

(** SendNext invokes the specified RPC on the supplied client when the
    client is ready.  On success, the reply is sent on the channel;
    otherwise an error is sent.  Returns the address the RPC was sent to. *)
Definition grpcTransport_SendNext : M (World grpcTransport) string :=
  (gt <- get_self ;;
   match orderedClients gt with
   | [] => panic IndexOutOfRange
   | client :: rest =>
       set_self (set_orderedClients rest gt) ;;;
       let addr := remoteAddr client in
       let localServer :=
         GetLocalInternalServerForAddr (rpcContext gt) addr in
       match enableLocalCalls, localServer with
       | true, Some localServer =>
           let ctx := contextWithTimeout (opts gt) in
           let '(reply, err) :=
             InternalServer_Batch localServer ctx (args client) in
           chan_send {| Reply := reply; Err := err |} ;;;
           ret addr
       | _, _ =>
           go (go_SendNext (opts gt) client) ;;;
           ret addr
       end
   end)%go.

(** [for i, c := range clients { if c.args.Replica == replica { ... } }]:
    the first index and client that match, counting from [i]. *)
Fixpoint range_find (replica : ReplicaDescriptor)
    (clients : list batchClient) (i : nat) : option (nat * batchClient) :=
  match clients with
  | [] => None
  | c :: clients =>
      if ReplicaDescriptor_eqb (Replica (args c)) replica
      then Some (i, c)
      else range_find replica clients (S i)
  end.

Definition grpcTransport_TryNext (replica : ReplicaDescriptor)
  : M (World grpcTransport) (option error) :=
  (exhausted <- grpcTransport_IsExhausted ;;
   if exhausted : bool then ret (Some (errors_New "transport is exhausted"))
   else if (ReplicaID replica =? 0)%Z
   then ret (Some (errors_New "new leader is <nil>"))
   else
     gt <- get_self ;;
     (* The client was going to be tried later, so we move it up to the
        head of the slice. *)
     match range_find replica (orderedClients gt) 0 with
     | Some (i, c) =>
         (* Move the client to the beginning of the slice.  ([c] is
            [gt.orderedClients[i]]; [oc] is never stored.) *)
         let oc := repeat batchClient_zero (length (orderedClients gt)) in
         let oc := oc ++ [c] in
         let oc := oc ++ take i (orderedClients gt) in
         let oc := oc ++ drop (i + 1) (orderedClients gt) in
         ret None
     | None =>
         (* A client we've already tried has been passed in.  So, we try
            it again.  To prevent excessive retries, we eliminate the
            least preferred client. *)
         match range_find replica (allOrderedClients gt) 0 with
         | Some (_, c) =>
             set_self
               (set_orderedClients
                  ([c] ++ take (length (orderedClients gt) - 1)
                               (orderedClients gt))
                  gt) ;;;
             ret None
         | None =>
             ret (Some (errors_Errorf "couldn't find client for replica %s"
                                      replica))
         end
     end)%go.

Definition grpcTransport_Close : M (World grpcTransport) unit := ret tt.

(** ** senderTransport

    The tracer only opens and finishes a span around the call. *)

Record senderTransport : Type := mkSenderTransport {
  sender : Sender;
  senderTransport_args : BatchRequest;
  called : bool
}.

Definition senderTransport_IsExhausted : M (World senderTransport) bool :=
  (s <- get_self ;; ret (called s))%go.

Definition senderTransport_SendNext : M (World senderTransport) string :=
  (s <- get_self ;;
   if called s then panic (PanicString "called an exhausted transport")
   else
     set_self (mkSenderTransport (sender s) (senderTransport_args s) true) ;;;
     let ctx := context_Background in
     let '(br, pErr) := Send (sender s) ctx (senderTransport_args s) in
     let br := match br with
               | None => mkBatchResponse None []
               | Some br => br
               end in
     match Error br with
     | Some _ => panic ErrorUnexpectedlySet
     | None =>
         let br := mkBatchResponse pErr (Responses br) in
         chan_send {| Reply := Some br; Err := None |} ;;;
         ret ""
     end)%go.

Definition senderTransport_Close : M (World senderTransport) unit := ret tt.

(** SenderTransportFactory wraps a client.Sender for use as a KV
    Transport. *)
Definition SenderTransportFactory (sender : Sender) (_ : SendOptions)
    (_ : rpc_Context) (_ : ReplicaSlice) (args : BatchRequest)
  : option senderTransport * option error :=
  (Some (mkSenderTransport sender args false), None).

(** ** The Transport interfaces *)

Class Transport (T : Type) : Type := {
  IsExhausted : M (World T) bool;
  SendNext : M (World T) string;
  Close : M (World T) unit
}.

Class tryNextTransport (T : Type) : Type := {
  TryNext : ReplicaDescriptor -> M (World T) (option error)
}.

#[export] Instance grpcTransport_Transport : Transport grpcTransport := {|
  IsExhausted := grpcTransport_IsExhausted;
  SendNext := grpcTransport_SendNext;
  Close := grpcTransport_Close
|}.

#[export] Instance grpcTransport_tryNextTransport
  : tryNextTransport grpcTransport := {|
  TryNext := grpcTransport_TryNext
|}.

#[export] Instance senderTransport_Transport : Transport senderTransport := {|
  IsExhausted := senderTransport_IsExhausted;
  SendNext := senderTransport_SendNext;
  Close := senderTransport_Close
|}.

(** * Vocabulary of the properties *)

Definition unhealthy (c : batchClient) : bool := negb (healthy c).

(** The stable partition of a slice: its healthy clients, then the others,
    each group in the order of the slice. *)
Definition partitioned (clients : list batchClient) : list batchClient :=
  List.filter healthy clients ++ List.filter unhealthy clients.

(** What [sort.Stable] promises, for a slice and the order of its [Less].
    Tag each element with its index in the input.  The result is a
    rearrangement of the tagged input in which no element is less than an
    earlier one, and of two elements neither of which is less than the
    other the one with the smaller index comes first. *)
Fixpoint tag_from {A} (i : nat) (l : list A) : list (nat * A) :=
  match l with
  | [] => []
  | x :: l => (i, x) :: tag_from (S i) l
  end.

Definition stable_before {A} (less : A -> A -> bool) (p q : nat * A) : Prop :=
  less (snd q) (snd p) = false
  /\ (less (snd p) (snd q) = true \/ fst p < fst q).

Definition sorts_stably {A} (less : A -> A -> bool) (l l' : list A) : Prop :=
  exists t,
    t ≡ₚ tag_from 0 l
    /\ l' = List.map snd t
    /\ StronglySorted (stable_before less) t.

(** The order of [byHealth.Less] on the elements. *)
Definition byHealth_less (x y : batchClient) : bool :=
  healthy x && negb (healthy y).

(** A client for [replica] is in the slice. *)
Definition present (replica : ReplicaDescriptor) (clients : list batchClient)
  : Prop :=
  exists c, In c clients /\ Replica (args c) = replica.

Definition with_self {T} (t : T) (w : World T) : World T :=
  mkWorld t (chan_done w) (goroutines w) (error_log w).

(** The scheduler takes a pending goroutine out of the pool to run it. *)
Definition pending {T} (before after : list goroutine) (w : World T)
  : World T :=
  mkWorld (self w) (chan_done w) (before ++ after) (error_log w).

(** [run w0 k w]: from [w0], the caller's calls to [SendNext], [IsExhausted]
    and [Close], interleaved in any way with the goroutines that were
    started, lead to [w], after [k] completed [SendNext] calls. *)
Inductive run (w0 : World grpcTransport)
  : nat -> World grpcTransport -> Prop :=
  | run_start : run w0 0 w0
  | run_SendNext k w addr w' :
      run w0 k w ->
      grpcTransport_SendNext w = Ok (addr, w') ->
      run w0 (S k) w'
  | run_IsExhausted k w b w' :
      run w0 k w ->
      grpcTransport_IsExhausted w = Ok (b, w') ->
      run w0 k w'
  | run_Close k w w' :
      run w0 k w ->
      grpcTransport_Close w = Ok (tt, w') ->
      run w0 k w'
  | run_go k w before g after w' :
      run w0 k w ->
      goroutines w = before ++ g :: after ->
      run_goroutine g (pending before after w) = Ok (tt, w') ->
      run w0 k w'.

(** A call that carries a reply or an error. *)
Definition carries_outcome (call : BatchCall) : Prop :=
  Reply call <> None \/ Err call <> None.

(** The error of the connection attempt to a replica, if it fails. *)
Definition dial_error (rpcContext : rpc_Context) (replica : ReplicaInfo)
  : option error :=
  snd (GRPCDial rpcContext (Address (NodeDesc replica))).

(** The attempt fails because the circuit breaker of the endpoint is open. *)
Definition breaker_open (rpcContext : rpc_Context) (replica : ReplicaInfo)
  : Prop :=
  exists err,
    dial_error rpcContext replica = Some err
    /\ errors_Cause err = circuit_ErrBreakerOpen.

(** The attempt fails with any other error. *)
Definition dial_fails (rpcContext : rpc_Context) (replica : ReplicaInfo)
    (err : error) : Prop :=
  dial_error rpcContext replica = Some err
  /\ errors_Cause err <> circuit_ErrBreakerOpen.

(** The clients of the replicas whose connection attempt succeeds, in the
    order of the replicas. *)
Definition dialed (rpcContext : rpc_Context) (args : BatchRequest)
    (replicas : ReplicaSlice) : list batchClient :=
  flat_map
    (fun replica =>
       match GRPCDial rpcContext (Address (NodeDesc replica)) with
       | (conn, None) =>
           [ {| remoteAddr := Address (NodeDesc replica);
                conn := conn;
                client := Some (NewInternalClient conn);
                args := mkBatchRequest (ReplicaInfo_ReplicaDescriptor replica)
                                       (Requests args);
                healthy :=
                  IsConnHealthy rpcContext (Address (NodeDesc replica)) |} ]
       | (_, Some _) => []
       end)
    replicas.

(** The sender's answer is a reply that already carries an error. *)
Definition embeds_error
    (answer : option BatchResponse * option roachpb_Error) : Prop :=
  exists reply e, fst answer = Some reply /\ Error reply = Some e.


(** The two failures of [TryNext] can be told apart on session [w]: a zero
    replica id and an unknown replica both make it fail and leave [w] as it
    is, with different errors. *)
Definition TryNext_failures_distinguished (w : World grpcTransport) : Prop :=
  forall zero unknown,
    ReplicaID zero = 0%Z ->
    ReplicaID unknown <> 0%Z ->
    ~ present unknown (orderedClients (self w)) ->
    ~ present unknown (allOrderedClients (self w)) ->
    exists err0 err1,
      grpcTransport_TryNext zero w = Ok (Some err0, w)
      /\ grpcTransport_TryNext unknown w = Ok (Some err1, w)
      /\ err0 <> err1.

(** ** Sample sessions

    Three replicas A, B and C, of which B is unhealthy; A is served by a
    handler in the same process.  The endpoint [open] has its circuit
    breaker open, the endpoint [down] refuses the connection. *)

Definition sample_answer
  : context_Context -> BatchRequest -> option BatchResponse * option error :=
  fun _ _ => (Some (mkBatchResponse None []), None).

Definition sample_client (addr : string) (id : Z) (h : bool) : batchClient :=
  {| remoteAddr := addr;
     conn := None;
     client := Some (mkInternalClient sample_answer);
     args := mkBatchRequest (mkReplicaDescriptor id id id) [];
     healthy := h |}.

Definition clientA : batchClient := sample_client "a:26257" 1 true.
Definition clientB : batchClient := sample_client "b:26257" 2 false.
Definition clientC : batchClient := sample_client "c:26257" 3 true.

Definition sample_rpcContext (conn0 : option ClientConn) : rpc_Context :=
  {| GRPCDial := fun addr =>
       if String.eqb addr "open:26257"
       then (None, Some (errors_Wrap circuit_ErrBreakerOpen "dial"))
       else if String.eqb addr "down:26257"
       then (None, Some (errors_New "connection refused"))
       else (conn0, None);
     IsConnHealthy := fun addr => negb (String.eqb addr "b:26257");
     GetLocalInternalServerForAddr := fun addr =>
       if String.eqb addr "a:26257"
       then Some (mkInternalServer sample_answer)
       else None |}.

Definition sample_opts : SendOptions := mkSendOptions context_Background 0 0.

Definition sample_session (remaining full : list batchClient)
  : World grpcTransport :=
  mkWorld (mkGrpcTransport sample_opts (sample_rpcContext None) remaining full)
          [] [] [].

Definition sample_replica (id : Z) (addr : string) : ReplicaInfo :=
  mkReplicaInfo (mkReplicaDescriptor id id id) (mkNodeDescriptor addr).

(** A sender that reports its error the proper way, and one whose reply
    already carries an error. *)
Definition sample_sender : Sender :=
  mkSender (fun _ _ => (None, Some (mk_roachpb_Error "range not found"))).



(** ** Vocabulary of the further properties *)

(** [session_run w0 k w]: as [run], with the caller's calls to [TryNext] as
    well. *)
Inductive session_run (w0 : World grpcTransport)
  : nat -> World grpcTransport -> Prop :=
  | session_start : session_run w0 0 w0
  | session_SendNext k w addr w' :
      session_run w0 k w ->
      grpcTransport_SendNext w = Ok (addr, w') ->
      session_run w0 (S k) w'
  | session_IsExhausted k w b w' :
      session_run w0 k w ->
      grpcTransport_IsExhausted w = Ok (b, w') ->
      session_run w0 k w'
  | session_TryNext k w replica err w' :
      session_run w0 k w ->
      grpcTransport_TryNext replica w = Ok (err, w') ->
      session_run w0 k w'
  | session_Close k w w' :
      session_run w0 k w ->
      grpcTransport_Close w = Ok (tt, w') ->
      session_run w0 k w'
  | session_go k w before g after w' :
      session_run w0 k w ->
      goroutines w = before ++ g :: after ->
      run_goroutine g (pending before after w) = Ok (tt, w') ->
      session_run w0 k w'.

(** The replicas the clients of a slice stand for. *)
Definition replicas_of (clients : list batchClient)
  : list ReplicaDescriptor :=
  List.map (fun c => Replica (args c)) clients.

(** The goroutine has a client stub to call. *)
Definition has_stub (g : goroutine) : Prop :=
  match g with go_SendNext _ c => client c <> None end.

(** The errors the goroutine logs for a reply: the failed verifications of
    its responses against the requests at the same positions. *)
Fixpoint verify_failures (responses : list ResponseUnion)
    (requests : list RequestUnion) : list error :=
  match responses, requests with
  | response :: responses, request :: requests =>
      match Verify response request with
      | Some err => err :: verify_failures responses requests
      | None => verify_failures responses requests
      end
  | _, _ => []
  end.

(** * Properties *)

(** ** The health partitioner *)

Lemma byHealth_Less_adjacent (P R : list batchClient) (u x : batchClient) :
  sort.Less (P ++ u :: x :: R) (S (length P)) (length P)
  = healthy x && negb (healthy u).
Proof.
  cbn [sort.Less byHealth].
  rewrite (list_lookup_middle P (x :: R) u (length P) eq_refl).
  replace (P ++ u :: x :: R) with ((P ++ [u]) ++ x :: R)
    by (rewrite <- app_assoc; reflexivity).
  rewrite (list_lookup_middle (P ++ [u]) R x (S (length P))).
  - reflexivity.
  - rewrite length_app. simpl. lia.
Qed.

Lemma byHealth_Swap_adjacent (P R : list batchClient) (u x : batchClient) :
  sort.Swap (P ++ u :: x :: R) (S (length P)) (length P) = P ++ x :: u :: R.
Proof.
  cbn [sort.Swap byHealth].
  rewrite (list_lookup_middle P (x :: R) u (length P) eq_refl).
  replace (P ++ u :: x :: R) with ((P ++ [u]) ++ x :: R)
    by (rewrite <- app_assoc; reflexivity).
  rewrite (list_lookup_middle (P ++ [u]) R x (S (length P)))
    by (rewrite length_app; simpl; lia).
  rewrite <- app_assoc. simpl.
  replace (S (length P)) with (length P + 1) by lia.
  rewrite insert_app_r. simpl.
  replace (length P) with (length P + 0) at 1 by lia.
  rewrite insert_app_r. reflexivity.
Qed.

Lemma insertionSort_inner_S (data : list batchClient) (j : nat) :
  sort.insertionSort_inner data 0 (S j)
  = if sort.Less data (S j) j
    then sort.insertionSort_inner (sort.Swap data (S j) j) 0 j
    else data.
Proof. reflexivity. Qed.

Lemma byHealth_Less_elements (h : list batchClient) (i j : nat)
    (x y : batchClient) :
  h !! i = Some x -> h !! j = Some y -> sort.Less h i j = byHealth_less x y.
Proof. intros Hi Hj. cbn [sort.Less byHealth]. rewrite Hi, Hj. reflexivity. Qed.

(** An unhealthy client stays where the outer loop found it. *)
Lemma insertionSort_inner_unhealthy (P R : list batchClient) (x : batchClient) :
  healthy x = false ->
  sort.insertionSort_inner (P ++ x :: R) 0 (length P) = P ++ x :: R.
Proof.
  intros Hx. destruct P as [|p P _] using rev_ind; [reflexivity|].
  rewrite length_app, Nat.add_1_r, insertionSort_inner_S, <- app_assoc.
  cbn [app length].
  rewrite byHealth_Less_adjacent, Hx. reflexivity.
Qed.

(** A healthy client moves down past every unhealthy one and stops behind
    the last healthy one. *)
Lemma insertionSort_inner_healthy (H U : list batchClient) (x : batchClient) :
  healthy x = true ->
  Forall (fun c => healthy c = true) H ->
  Forall (fun c => healthy c = false) U ->
  forall R,
    sort.insertionSort_inner (H ++ U ++ x :: R) 0 (length H + length U)
    = H ++ x :: U ++ R.
Proof.
  intros Hx HH.
  induction U as [|u U IH] using rev_ind; intros HU R.
  - cbn [app length]. rewrite Nat.add_0_r.
    revert HH. destruct H as [|h H _] using rev_ind; [reflexivity|].
    intros HH. apply Forall_app in HH as [_ Hh].
    rewrite Forall_singleton in Hh.
    rewrite length_app, Nat.add_1_r, insertionSort_inner_S, <- app_assoc.
    cbn [app length].
    rewrite byHealth_Less_adjacent, Hx, Hh. reflexivity.
  - apply Forall_app in HU as [HU Hu]. rewrite Forall_singleton in Hu.
    replace (length H + length (U ++ [u])) with (S (length (H ++ U)))
      by (rewrite !length_app; cbn [length]; lia).
    replace (H ++ (U ++ [u]) ++ x :: R) with ((H ++ U) ++ u :: x :: R)
      by (rewrite <- !app_assoc; reflexivity).
    rewrite insertionSort_inner_S, byHealth_Less_adjacent, Hx, Hu.
    cbn [andb negb].
    rewrite byHealth_Swap_adjacent, length_app, <- app_assoc.
    rewrite (IH HU (u :: R)), <- app_assoc. reflexivity.
Qed.

Lemma filter_healthy_Forall (l : list batchClient) :
  Forall (fun c => healthy c = true) (List.filter healthy l).
Proof.
  apply Forall_forall. intros c Hc.
  apply list_elem_of_In, List.filter_In in Hc. tauto.
Qed.

Lemma filter_unhealthy_Forall (l : list batchClient) :
  Forall (fun c => healthy c = false) (List.filter unhealthy l).
Proof.
  apply Forall_forall. intros c Hc.
  apply list_elem_of_In, List.filter_In in Hc. unfold unhealthy in Hc.
  destruct (healthy c); [destruct Hc; discriminate | reflexivity].
Qed.

Lemma partitioned_length (l : list batchClient) :
  length (partitioned l) = length l.
Proof.
  unfold partitioned, unhealthy. induction l as [|c l IH]; [reflexivity|].
  cbn [List.filter]. destruct (healthy c); cbn [negb];
    rewrite ?length_app in *; cbn [length]; lia.
Qed.

Lemma partitioned_snoc (P : list batchClient) (x : batchClient) :
  partitioned (P ++ [x])
  = if healthy x
    then List.filter healthy P ++ x :: List.filter unhealthy P
    else partitioned P ++ [x].
Proof.
  unfold partitioned, unhealthy. rewrite !List.filter_app. cbn [List.filter].
  destruct (healthy x); cbn [negb]; rewrite ?app_nil_r, <- ?app_assoc;
    reflexivity.
Qed.

(** One round of the outer loop inserts the next client into the
    partitioned prefix. *)
Lemma insertionSort_inner_partitioned (P R : list batchClient) (x : batchClient) :
  sort.insertionSort_inner (partitioned P ++ x :: R) 0 (length P)
  = partitioned (P ++ [x]) ++ R.
Proof.
  rewrite partitioned_snoc. destruct (healthy x) eqn:Hx.
  - rewrite <- (partitioned_length P). unfold partitioned.
    rewrite length_app, <- !app_assoc.
    rewrite insertionSort_inner_healthy;
      auto using filter_healthy_Forall, filter_unhealthy_Forall.
  - rewrite <- (partitioned_length P).
    rewrite insertionSort_inner_unhealthy by assumption.
    rewrite <- app_assoc. reflexivity.
Qed.

Lemma insertionSort_outer_partitioned (R P : list batchClient) :
  sort.insertionSort_outer (partitioned P ++ R) 0 (length P) (length R)
  = partitioned (P ++ R).
Proof.
  revert P. induction R as [|x R IH]; intros P.
  - cbn [sort.insertionSort_outer length]. rewrite !app_nil_r. reflexivity.
  - cbn [sort.insertionSort_outer length].
    rewrite insertionSort_inner_partitioned.
    replace (S (length P)) with (length (P ++ [x]))
      by (rewrite length_app; cbn [length]; lia).
    rewrite IH, <- app_assoc. reflexivity.
Qed.

Lemma Stable_byHealth (clients : list batchClient) :
  sort.Stable clients = partitioned clients.
Proof.
  unfold sort.Stable, sort.insertionSort. cbn [sort.Len byHealth].
  destruct clients as [|x R]; [reflexivity|].
  cbn [length]. replace (S (length R) - (0 + 1)) with (length R) by lia.
  replace (x :: R) with (partitioned [x] ++ R) at 1.
  - apply (insertionSort_outer_partitioned R [x]).
  - unfold partitioned, unhealthy. cbn [List.filter].
    destruct (healthy x); reflexivity.
Qed.

(** A stable sort has one possible result, so the routine the library
    runs does not matter: whatever sorts stably by [byHealth]'s order
    returns what [sort.Stable] returns here. *)
Lemma sorts_stably_unique {A} (less : A -> A -> bool) (l l1 l2 : list A) :
  sorts_stably less l l1 -> sorts_stably less l l2 -> l1 = l2.
Proof.
  intros (t1 & P1 & -> & S1) (t2 & P2 & -> & S2). f_equal.
  apply (StronglySorted_unique_strong (stable_before less)); try assumption.
  - intros p q _ _ [Hqp [Hpq | Hlt]] [Hpq' [Hqp' | Hlt']];
      try congruence. lia.
  - rewrite P1, P2. reflexivity.
Qed.

Lemma tag_from_fst {A} (l : list A) (i : nat) (p : nat * A) :
  In p (tag_from i l) -> i <= fst p.
Proof.
  revert i. induction l as [|x l IH]; intros i; cbn [tag_from In]; [tauto|].
  intros [<- | Hin]; [cbn; lia|]. apply IH in Hin. lia.
Qed.

Lemma tag_from_snd {A} (f : A -> bool) (l : list A) (i : nat) :
  List.map snd (List.filter (fun p => f (snd p)) (tag_from i l))
  = List.filter f l.
Proof.
  revert i. induction l as [|x l IH]; intros i; [reflexivity|].
  cbn [tag_from List.filter snd]. destruct (f x); cbn [List.map snd];
    rewrite IH; reflexivity.
Qed.

Lemma filter_complement_Permutation {A} (f : A -> bool) (l : list A) :
  List.filter f l ++ List.filter (fun x => negb (f x)) l ≡ₚ l.
Proof.
  induction l as [|x l IH]; [reflexivity|].
  cbn [List.filter]. destruct (f x); cbn [negb app].
  - rewrite IH. reflexivity.
  - rewrite <- Permutation_middle, IH. reflexivity.
Qed.

Lemma tag_from_class_sorted (f : batchClient -> bool) (l : list batchClient)
    (i : nat) :
  (forall x y, f x = true -> f y = true -> byHealth_less x y = false) ->
  StronglySorted (stable_before byHealth_less)
                 (List.filter (fun p => f (snd p)) (tag_from i l)).
Proof.
  intros Hclass. revert i.
  induction l as [|x l IH]; intros i; cbn [tag_from List.filter snd];
    [constructor|].
  destruct (f x) eqn:Hx; [|apply IH].
  constructor; [apply IH|].
  apply Forall_forall. intros q Hq.
  apply list_elem_of_In, List.filter_In in Hq as [Hin Hfq].
  apply tag_from_fst in Hin. split; cbn [fst snd].
  - apply Hclass; assumption.
  - right. lia.
Qed.

Lemma partitioned_sorts_stably (l : list batchClient) :
  sorts_stably byHealth_less l (partitioned l).
Proof.
  exists (List.filter (fun p => healthy (snd p)) (tag_from 0 l)
          ++ List.filter (fun p => negb (healthy (snd p))) (tag_from 0 l)).
  split; [|split].
  - apply (filter_complement_Permutation (fun p => healthy (snd p))).
  - rewrite List.map_app, (tag_from_snd healthy),
      (tag_from_snd (fun c => negb (healthy c))).
    reflexivity.
  - apply StronglySorted_app_2.
    + intros p q Hp Hq.
      apply list_elem_of_In, List.filter_In in Hp as [_ Hp].
      apply list_elem_of_In, List.filter_In in Hq as [_ Hq].
      unfold stable_before, byHealth_less.
      destruct (healthy (snd p)), (healthy (snd q)); try discriminate.
      auto.
    + apply (tag_from_class_sorted healthy).
      intros x y _ Hy. unfold byHealth_less. rewrite Hy.
      apply andb_false_r.
    + apply (tag_from_class_sorted (fun c => negb (healthy c))).
      intros x y Hx _. unfold byHealth_less.
      destruct (healthy x); [discriminate | reflexivity].
Qed.

Lemma sort_Stable_unique (l l' : list batchClient) :
  sorts_stably byHealth_less l l' -> l' = sort.Stable l.
Proof.
  intros Hl'. rewrite Stable_byHealth.
  exact (sorts_stably_unique _ _ _ _ Hl' (partitioned_sorts_stably l)).
Qed.

Lemma count_healthy (l : list batchClient) (n : nat) :
  fold_left (fun nHealthy c => if healthy c then S nHealthy else nHealthy) l n
  = n + length (List.filter healthy l).
Proof.
  revert n. induction l as [|c l IH]; intros n; cbn [fold_left List.filter].
  - cbn [length]. lia.
  - rewrite IH. destruct (healthy c); cbn [length]; lia.
Qed.

Lemma filter_healthy_partitioned (l : list batchClient) :
  List.filter healthy (partitioned l) = List.filter healthy l.
Proof.
  unfold partitioned, unhealthy. rewrite List.filter_app.
  induction l as [|c l IH]; [reflexivity|].
  cbn [List.filter]. destruct (healthy c) eqn:Hc; cbn [negb List.filter app].
  - rewrite Hc. cbn [app]. f_equal. exact IH.
  - rewrite Hc. exact IH.
Qed.

Lemma splitHealthy_eq (clients : list batchClient) :
  splitHealthy clients
  = (partitioned clients, length (List.filter healthy clients)).
Proof.
  unfold splitHealthy. rewrite Stable_byHealth, count_healthy.
  rewrite filter_healthy_partitioned. reflexivity.
Qed.

(** C3.  The health partitioner is a stable partition: of the slice it
    returns, the first [h] entries ([h] the returned count) are the healthy
    clients of the input in their original order, the rest are the
    unhealthy ones in their original order, and [h] is the number of healthy
    clients.  The empty slice gives the empty slice and zero. *)
Theorem splitHealthy_stable_partition (clients : list batchClient) :
  let sorted := fst (splitHealthy clients) in
  let h := snd (splitHealthy clients) in
  take h sorted = List.filter healthy clients
  /\ drop h sorted = List.filter (fun c => negb (healthy c)) clients
  /\ h = length (List.filter healthy clients)
  /\ splitHealthy [] = ([], 0).
Proof.
  cbv zeta. rewrite splitHealthy_eq. cbn [fst snd]. unfold partitioned.
  split; [apply take_app_length|].
  split; [apply drop_app_length|].
  split; reflexivity.
Qed.

(** ** TryNext *)

Lemma ReplicaDescriptor_eqb_eq (a b : ReplicaDescriptor) :
  ReplicaDescriptor_eqb a b = true <-> a = b.
Proof.
  unfold ReplicaDescriptor_eqb. rewrite !andb_true_iff, !Z.eqb_eq.
  destruct a, b; cbn. split.
  - intros [[-> ->] ->]. reflexivity.
  - intros [= -> -> ->]. auto.
Qed.

Lemma range_find_None (replica : ReplicaDescriptor)
    (clients : list batchClient) (i : nat) :
  range_find replica clients i = None <-> ~ present replica clients.
Proof.
  revert i. induction clients as [|c clients IH]; intros i; cbn [range_find].
  - split; [intros _ (c & [] & _) | reflexivity].
  - destruct (ReplicaDescriptor_eqb (Replica (args c)) replica) eqn:E.
    + split; [discriminate|]. intros Hn. exfalso. apply Hn.
      exists c. split; [left; reflexivity | apply ReplicaDescriptor_eqb_eq, E].
    + rewrite IH. split; intros Hn (c' & Hin & Hc').
      * destruct Hin as [<- | Hin].
        -- apply ReplicaDescriptor_eqb_eq in Hc'. congruence.
        -- apply Hn. exists c'. auto.
      * apply Hn. exists c'. split; [right; assumption | assumption].
Qed.

(** The match is the first client of the slice with that replica. *)
Lemma range_find_Some (replica : ReplicaDescriptor)
    (clients : list batchClient) (i j : nat) (c : batchClient) :
  range_find replica clients i = Some (j, c) ->
  exists before after,
    clients = before ++ c :: after
    /\ j = i + length before
    /\ Replica (args c) = replica
    /\ ~ present replica before.
Proof.
  revert i. induction clients as [|c0 clients IH]; intros i; cbn [range_find];
    [discriminate|].
  destruct (ReplicaDescriptor_eqb (Replica (args c0)) replica) eqn:E.
  - intros [= <- <-]. exists [], clients. cbn [app length].
    split; [reflexivity|]. split; [lia|].
    split; [apply ReplicaDescriptor_eqb_eq, E | intros (c' & [] & _)].
  - intros Hf. destruct (IH _ Hf) as (before & after & -> & -> & Hc & Hn).
    exists (c0 :: before), after. cbn [app length].
    split; [reflexivity|]. split; [lia|]. split; [assumption|].
    intros (c' & [<- | Hin] & Hc').
    + apply ReplicaDescriptor_eqb_eq in Hc'. congruence.
    + apply Hn. exists c'. auto.
Qed.

(** [TryNext], branch by branch. *)
Lemma grpcTransport_TryNext_eq (replica : ReplicaDescriptor)
    (w : World grpcTransport) :
  grpcTransport_TryNext replica w =
  let gt := self w in
  if length (orderedClients gt) =? 0
  then Ok (Some (errors_New "transport is exhausted"), w)
  else if (ReplicaID replica =? 0)%Z
  then Ok (Some (errors_New "new leader is <nil>"), w)
  else match range_find replica (orderedClients gt) 0 with
       | Some _ => Ok (None, w)
       | None =>
           match range_find replica (allOrderedClients gt) 0 with
           | Some (_, c) =>
               Ok (None,
                   with_self
                     (set_orderedClients
                        (c :: take (length (orderedClients gt) - 1)
                                   (orderedClients gt)) gt) w)
           | None =>
               Ok (Some (errors_Errorf "couldn't find client for replica %s"
                                       replica), w)
           end
       end.
Proof.
  unfold grpcTransport_TryNext, grpcTransport_IsExhausted, bind, get_self, ret.
  cbv zeta.
  destruct (length (orderedClients (self w)) =? 0); [reflexivity|].
  destruct (ReplicaID replica =? 0)%Z; [reflexivity|].
  destruct (range_find replica (orderedClients (self w)) 0) as [[i c]|];
    [reflexivity|].
  destruct (range_find replica (allOrderedClients (self w)) 0) as [[i c]|];
    reflexivity.
Qed.

(** What the code does for a replica still among the remaining clients: it
    reports success and stores nothing. *)
Lemma grpcTransport_TryNext_present (replica : ReplicaDescriptor)
    (w : World grpcTransport) :
  ReplicaID replica <> 0%Z ->
  present replica (orderedClients (self w)) ->
  grpcTransport_TryNext replica w = Ok (None, w).
Proof.
  intros Hid Hp. rewrite grpcTransport_TryNext_eq. cbv zeta.
  destruct (orderedClients (self w)) as [|c0 rest] eqn:Hoc.
  - destruct Hp as (c & [] & _).
  - cbn [length Nat.eqb]. apply Z.eqb_neq in Hid. rewrite Hid.
    destruct (range_find replica (c0 :: rest) 0) eqn:Hf; [reflexivity|].
    apply range_find_None in Hf. contradiction.
Qed.

(** C2.  On a session whose remaining list is not empty, [TryNext] with a
    nonzero replica id that names no remaining client but names a client of
    the full set succeeds; afterwards that client is at the front of the
    remaining list, the previous last entry is gone, and the length is what
    it was. *)
Theorem grpcTransport_TryNext_reinsert (replica : ReplicaDescriptor)
    (w : World grpcTransport) :
  orderedClients (self w) <> [] ->
  ReplicaID replica <> 0%Z ->
  ~ present replica (orderedClients (self w)) ->
  present replica (allOrderedClients (self w)) ->
  exists c front last w',
    grpcTransport_TryNext replica w = Ok (None, w')
    /\ orderedClients (self w) = front ++ [last]
    /\ In c (allOrderedClients (self w))
    /\ Replica (args c) = replica
    /\ orderedClients (self w') = c :: front
    /\ length (orderedClients (self w')) = length (orderedClients (self w))
    /\ allOrderedClients (self w') = allOrderedClients (self w)
    /\ chan_done w' = chan_done w
    /\ goroutines w' = goroutines w.
Proof.
  intros Hne Hid Hnp Hp. rewrite grpcTransport_TryNext_eq. cbv zeta.
  destruct (orderedClients (self w)) as [|lst front _] eqn:Hoc using rev_ind;
    [contradiction|].
  rewrite length_app. cbn [length].
  replace (length front + 1 =? 0) with false
    by (symmetry; apply Nat.eqb_neq; lia).
  apply Z.eqb_neq in Hid. rewrite Hid.
  apply range_find_None with (i := 0) in Hnp. rewrite Hnp.
  destruct (range_find replica (allOrderedClients (self w)) 0)
    as [[i c]|] eqn:Hf.
  - apply range_find_Some in Hf as (before & after & Hall & _ & Hc & _).
    exists c, front, lst. eexists. split; [reflexivity|].
    replace (length front + 1 - 1) with (length front) by lia.
    rewrite take_app_length. cbn.
    split; [reflexivity|].
    split; [rewrite Hall; apply in_or_app; right; left; reflexivity|].
    split; [assumption|]. split; [reflexivity|].
    split; [rewrite ?length_app; cbn [length]; lia|]. auto.
  - apply range_find_None in Hf. contradiction.
Qed.

(** C10.  On an exhausted session [TryNext] returns an error and changes
    nothing, whichever replica it is given. *)
Theorem grpcTransport_TryNext_exhausted (replica : ReplicaDescriptor)
    (w : World grpcTransport) :
  orderedClients (self w) = [] ->
  grpcTransport_TryNext replica w
  = Ok (Some (errors_New "transport is exhausted"), w).
Proof.
  intros Hoc. rewrite grpcTransport_TryNext_eq. cbv zeta. rewrite Hoc.
  reflexivity.
Qed.

(** C7, as the code has it.  [TryNext] with a zero replica id, or with a
    nonzero one that names no client of the remaining list nor of the full
    set, returns an error and leaves the session as it was.  On a session
    that is not exhausted the error tells the two causes apart; on an
    exhausted one it is the exhaustion error whatever the replica. *)
Theorem grpcTransport_TryNext_failure (w : World grpcTransport) :
  (forall replica,
     ReplicaID replica = 0%Z
     \/ (ReplicaID replica <> 0%Z
         /\ ~ present replica (orderedClients (self w))
         /\ ~ present replica (allOrderedClients (self w))) ->
     exists err, grpcTransport_TryNext replica w = Ok (Some err, w))
  /\ (orderedClients (self w) <> [] -> TryNext_failures_distinguished w)
  /\ (orderedClients (self w) = [] ->
      forall replica,
        grpcTransport_TryNext replica w
        = Ok (Some (errors_New "transport is exhausted"), w)).
Proof.
  assert (Hex : orderedClients (self w) = [] ->
                forall replica,
                  grpcTransport_TryNext replica w
                  = Ok (Some (errors_New "transport is exhausted"), w)).
  { intros Hoc replica. rewrite grpcTransport_TryNext_eq. cbv zeta.
    rewrite Hoc. reflexivity. }
  assert (Hzero : forall replica,
            orderedClients (self w) <> [] -> ReplicaID replica = 0%Z ->
            grpcTransport_TryNext replica w
            = Ok (Some (errors_New "new leader is <nil>"), w)).
  { intros replica Hoc Hid. rewrite grpcTransport_TryNext_eq. cbv zeta.
    destruct (orderedClients (self w)); [contradiction|].
    cbn [length Nat.eqb]. rewrite Hid. reflexivity. }
  assert (Hunknown : forall replica,
            orderedClients (self w) <> [] -> ReplicaID replica <> 0%Z ->
            ~ present replica (orderedClients (self w)) ->
            ~ present replica (allOrderedClients (self w)) ->
            grpcTransport_TryNext replica w
            = Ok (Some (errors_Errorf "couldn't find client for replica %s"
                                      replica), w)).
  { intros replica Hoc Hid Hn1 Hn2.
    rewrite grpcTransport_TryNext_eq. cbv zeta.
    apply range_find_None with (i := 0) in Hn1, Hn2. rewrite Hn1, Hn2.
    destruct (orderedClients (self w)); [contradiction|].
    cbn [length Nat.eqb]. apply Z.eqb_neq in Hid. rewrite Hid. reflexivity. }
  split; [|split; [|assumption]].
  - intros replica Hcase.
    destruct (orderedClients (self w)) as [|c0 rest] eqn:Hoc.
    + eexists. apply Hex. reflexivity.
    + destruct Hcase as [Hid | (Hid & Hn1 & Hn2)].
      * eexists. apply Hzero; [discriminate | assumption].
      * eexists. apply Hunknown; [discriminate | assumption ..].
  - intros Hoc zero unknown Hz Hu Hn1 Hn2.
    eexists. eexists. split; [apply Hzero; assumption|].
    split; [apply Hunknown; assumption | discriminate].
Qed.

(** ** SendNext *)

(** [SendNext], path by path. *)
Lemma grpcTransport_SendNext_eq (w : World grpcTransport) :
  grpcTransport_SendNext w =
  let gt := self w in
  match orderedClients gt with
  | [] => Panic IndexOutOfRange
  | c :: rest =>
      let addr := remoteAddr c in
      match enableLocalCalls,
            GetLocalInternalServerForAddr (rpcContext gt) addr with
      | true, Some localServer =>
          let answer :=
            InternalServer_Batch localServer (contextWithTimeout (opts gt))
                                 (args c) in
          Ok (addr,
              mkWorld (set_orderedClients rest gt)
                      (chan_done w ++ [mkBatchCall (fst answer) (snd answer)])
                      (goroutines w) (error_log w))
      | _, _ =>
          Ok (addr,
              mkWorld (set_orderedClients rest gt) (chan_done w)
                      (goroutines w ++ [go_SendNext (opts gt) c])
                      (error_log w))
      end
  end.
Proof.
  unfold grpcTransport_SendNext, bind, get_self, set_self, modify, ret.
  cbv zeta.
  destruct (orderedClients (self w)) as [|c rest]; [reflexivity|].
  destruct enableLocalCalls; cbn.
  - destruct (GetLocalInternalServerForAddr (rpcContext (self w))
                                            (remoteAddr c)) as [ls|];
      [|reflexivity].
    unfold chan_send, modify, bind.
    destruct (InternalServer_Batch ls (contextWithTimeout (opts (self w)))
                                   (args c)); reflexivity.
  - destruct (GetLocalInternalServerForAddr (rpcContext (self w))
                                            (remoteAddr c)); reflexivity.
Qed.

Lemma grpcTransport_IsExhausted_eq (w : World grpcTransport) :
  grpcTransport_IsExhausted w
  = Ok (length (orderedClients (self w)) =? 0, w).
Proof. reflexivity. Qed.

Lemma grpcTransport_not_exhausted (w : World grpcTransport) :
  grpcTransport_IsExhausted w = Ok (false, w) ->
  exists c rest, orderedClients (self w) = c :: rest.
Proof.
  rewrite grpcTransport_IsExhausted_eq. intros [= Hlen].
  destruct (orderedClients (self w)) as [|c rest]; [discriminate|]. eauto.
Qed.

Lemma grpcTransport_SendNext_completes (w : World grpcTransport) :
  orderedClients (self w) <> [] ->
  exists addr w', grpcTransport_SendNext w = Ok (addr, w').
Proof.
  intros Hoc. rewrite grpcTransport_SendNext_eq. cbv zeta.
  destruct (orderedClients (self w)) as [|c rest]; [contradiction|].
  destruct enableLocalCalls;
    [destruct (GetLocalInternalServerForAddr (rpcContext (self w))
                                             (remoteAddr c))|];
    eauto.
Qed.

(** C5.  On a session that is not exhausted, [SendNext] removes the head of
    the remaining list, leaves the other entries in order (one fewer in
    all), and returns the address of that head, whichever path the call
    takes. *)
Theorem grpcTransport_SendNext_pops_head (w : World grpcTransport) :
  grpcTransport_IsExhausted w = Ok (false, w) ->
  exists c rest w',
    orderedClients (self w) = c :: rest
    /\ grpcTransport_SendNext w = Ok (remoteAddr c, w')
    /\ orderedClients (self w') = rest
    /\ S (length (orderedClients (self w')))
       = length (orderedClients (self w))
    /\ allOrderedClients (self w') = allOrderedClients (self w).
Proof.
  intros Hne. destruct (grpcTransport_not_exhausted w Hne) as (c & rest & Hoc).
  exists c, rest. rewrite grpcTransport_SendNext_eq. cbv zeta. rewrite Hoc.
  destruct enableLocalCalls;
    [destruct (GetLocalInternalServerForAddr (rpcContext (self w))
                                             (remoteAddr c))|];
    eexists; (split; [reflexivity|]); (split; [reflexivity|]); cbn; auto.
Qed.

(** ** Sessions on which TryNext is never called *)

Lemma verify_range_self {T} (responses : list ResponseUnion)
    (requests : list RequestUnion) (i : nat) (v v' : World T) :
  verify_range i responses requests v = Ok (tt, v') ->
  self v' = self v /\ chan_done v' = chan_done v
  /\ goroutines v' = goroutines v.
Proof.
  revert i v. induction responses as [|response responses IH]; intros i v;
    cbn [verify_range].
  - intros [= <-]. auto.
  - destruct (requests !! i) as [request|]; [|discriminate].
    unfold bind at 1.
    destruct (Verify response request) as [err|]; cbn.
    + intros Hv. apply IH in Hv. cbn in Hv. exact Hv.
    + intros Hv. apply IH in Hv. exact Hv.
Qed.

Lemma run_goroutine_self {T} (g : goroutine) (v v' : World T) :
  run_goroutine g v = Ok (tt, v') ->
  self v' = self v /\ goroutines v' = goroutines v.
Proof.
  destruct g as [o c]. cbn [run_goroutine].
  destruct (client c) as [stub|]; [|discriminate].
  destruct (InternalClient_Batch stub (contextWithTimeout o) (args c))
    as [reply err].
  unfold bind at 1. destruct reply as [reply|].
  - destruct (verify_range 0 (Responses reply) (Requests (args c)) v)
      as [[[] v1]|] eqn:Hv; [|discriminate].
    apply verify_range_self in Hv as (Hs & _ & Hg).
    cbn. intros [= <-]. cbn. auto.
  - cbn. intros [= <-]. cbn. auto.
Qed.

Lemma run_remaining (w0 w : World grpcTransport) (k : nat) :
  run w0 k w ->
  length (orderedClients (self w)) + k = length (orderedClients (self w0)).
Proof.
  induction 1 as [|k w addr w' _ IH Hs|k w b w' _ IH Hq|k w w' _ IH Hc
                  |k w before g after w' _ IH _ Hg].
  - lia.
  - rewrite grpcTransport_SendNext_eq in Hs. cbv zeta in Hs.
    destruct (orderedClients (self w)) as [|c rest]; [discriminate|].
    cbn [length] in IH.
    destruct enableLocalCalls;
      [destruct (GetLocalInternalServerForAddr (rpcContext (self w))
                                               (remoteAddr c))|];
      injection Hs as _ <-; cbn; lia.
  - rewrite grpcTransport_IsExhausted_eq in Hq. injection Hq as _ <-.
    exact IH.
  - injection Hc as <-. exact IH.
  - apply run_goroutine_self in Hg as [-> _]. exact IH.
Qed.

Lemma run_exists (w0 : World grpcTransport) (k : nat) :
  k <= length (orderedClients (self w0)) -> exists w, run w0 k w.
Proof.
  induction k as [|k IH]; intros Hk.
  - exists w0. constructor.
  - destruct IH as [w Hrun]; [lia|].
    pose proof (run_remaining _ _ _ Hrun) as Hlen.
    destruct (grpcTransport_SendNext_completes w) as (addr & w' & Hs).
    + intros Hoc. rewrite Hoc in Hlen. cbn [length] in Hlen. lia.
    + exists w'. eapply run_SendNext; eassumption.
Qed.

(** C4.  Take a session as the factory builds it (the remaining list is the
    full set) on which [TryNext] is never called.  After [k] completed
    [SendNext] calls, [IsExhausted] answers true exactly when [k] is the size
    of the original candidate set, and it leaves the session as it is.
    Every number of calls up to that size can be completed, and no more. *)
Theorem grpcTransport_IsExhausted_iff_all_sent (w0 : World grpcTransport) :
  orderedClients (self w0) = allOrderedClients (self w0) ->
  (forall k w, run w0 k w ->
     grpcTransport_IsExhausted w
     = Ok (k =? length (allOrderedClients (self w0)), w))
  /\ (forall k, k <= length (allOrderedClients (self w0)) ->
       exists w, run w0 k w)
  /\ (forall k w, run w0 k w -> k <= length (allOrderedClients (self w0))).
Proof.
  intros Hfresh. rewrite <- Hfresh. split; [|split].
  - intros k w Hrun. apply run_remaining in Hrun.
    rewrite grpcTransport_IsExhausted_eq. f_equal. f_equal.
    destruct (Nat.eqb_spec (length (orderedClients (self w))) 0);
      destruct (Nat.eqb_spec k (length (orderedClients (self w0)))); lia.
  - apply run_exists.
  - intros k w Hrun. apply run_remaining in Hrun. lia.
Qed.

(** ** One outcome for each SendNext *)

Lemma verify_range_eq {T} (responses : list ResponseUnion)
    (requests : list RequestUnion) (i : nat) (v : World T) :
  i + length responses <= length requests ->
  verify_range i responses requests v
  = Ok (tt, mkWorld (self v) (chan_done v) (goroutines v)
                    (error_log v
                     ++ verify_failures responses (drop i requests))).
Proof.
  revert i v. induction responses as [|response responses IH]; intros i v Hi.
  - cbn [verify_range verify_failures]. rewrite app_nil_r.
    destruct v; reflexivity.
  - cbn [length] in Hi.
    destruct (lookup_lt_is_Some_2 requests i) as [request Hr]; [lia|].
    cbn [verify_range]. rewrite Hr, (drop_S _ _ _ Hr).
    cbn [verify_failures]. unfold bind at 1.
    destruct (Verify response request) as [err|]; cbn.
    + rewrite IH by lia. cbn. rewrite <- app_assoc. reflexivity.
    + rewrite IH by lia. reflexivity.
Qed.

(** A goroutine that runs to its end has sent one call on the channel. *)
Lemma run_goroutine_sends_one {T} (g : goroutine) (v v' : World T) :
  run_goroutine g v = Ok (tt, v') ->
  exists call, chan_done v' = chan_done v ++ [call].
Proof.
  destruct g as [o c]. cbn [run_goroutine].
  destruct (client c) as [stub|]; [|discriminate].
  destruct (InternalClient_Batch stub (contextWithTimeout o) (args c))
    as [reply err].
  unfold bind at 1. destruct reply as [reply|].
  - destruct (verify_range 0 (Responses reply) (Requests (args c)) v)
      as [[[] v1]|] eqn:Hv; [|discriminate].
    apply verify_range_self in Hv as (_ & Hd & _).
    cbn. intros [= <-]. cbn. rewrite Hd. eauto.
  - cbn. intros [= <-]. cbn. eauto.
Qed.




(** ** The factory *)

Lemma error_eqb_eq (a b : error) : error_eqb a b = true <-> a = b.
Proof.
  revert b. induction a as [|m|f r|c IH m]; intros [|n|g s|d n];
    cbn [error_eqb]; try (split; [discriminate | congruence]);
    try (split; congruence).
  - rewrite String.eqb_eq. split; congruence.
  - rewrite andb_true_iff, String.eqb_eq, ReplicaDescriptor_eqb_eq.
    split; [intros [-> ->]; reflexivity | intros [= -> ->]; auto].
  - rewrite andb_true_iff, IH, String.eqb_eq.
    split; [intros [-> ->]; reflexivity | intros [= -> ->]; auto].
Qed.

Lemma grpcTransportFactory_range_skip (rpcContext : rpc_Context)
    (args : BatchRequest) (replica : ReplicaInfo) (after : ReplicaSlice) :
  breaker_open rpcContext replica ->
  forall before clients,
    grpcTransportFactory_range rpcContext args (before ++ replica :: after)
                               clients
    = grpcTransportFactory_range rpcContext args (before ++ after) clients.
Proof.
  intros (err & Hd & Hc). unfold dial_error in Hd.
  induction before as [|r before IH]; intros clients;
    cbn [app grpcTransportFactory_range].
  - destruct (GRPCDial rpcContext (Address (NodeDesc replica))) as [conn e].
    cbn [snd] in Hd. subst e. rewrite Hc. reflexivity.
  - destruct (GRPCDial rpcContext (Address (NodeDesc r))) as [conn [e|]].
    + destruct (error_eqb (errors_Cause e) circuit_ErrBreakerOpen);
        [apply IH | reflexivity].
    + apply IH.
Qed.

Lemma grpcTransportFactory_range_dialed (rpcContext : rpc_Context)
    (args : BatchRequest) (replicas : ReplicaSlice) :
  (forall replica err, In replica replicas ->
                       ~ dial_fails rpcContext replica err) ->
  forall clients,
    grpcTransportFactory_range rpcContext args replicas clients
    = inl (clients ++ dialed rpcContext args replicas).
Proof.
  unfold dial_fails, dial_error.
  induction replicas as [|r replicas IH]; intros Hok clients;
    cbn [grpcTransportFactory_range dialed flat_map].
  - rewrite app_nil_r. reflexivity.
  - pose proof (Hok r) as Hr.
    destruct (GRPCDial rpcContext (Address (NodeDesc r))) as [conn [e|]].
    + destruct (error_eqb (errors_Cause e) circuit_ErrBreakerOpen) eqn:E.
      * cbn [app]. apply IH. intros replica err Hin. apply Hok. right.
        exact Hin.
      * exfalso. apply (Hr e); [left; reflexivity|]. cbn [snd].
        split; [reflexivity|]. intros Hc. rewrite Hc in E. discriminate.
    + rewrite IH by (intros replica err Hin; apply Hok; right; exact Hin).
      rewrite <- app_assoc. reflexivity.
Qed.

Lemma grpcTransportFactory_range_abort (rpcContext : rpc_Context)
    (args : BatchRequest) (replica : ReplicaInfo) (err : error)
    (after : ReplicaSlice) :
  dial_fails rpcContext replica err ->
  forall before clients,
    (forall r e, In r before -> ~ dial_fails rpcContext r e) ->
    grpcTransportFactory_range rpcContext args (before ++ replica :: after)
                               clients
    = inr err.
Proof.
  intros [Hd Hc]. unfold dial_fails, dial_error in *.
  induction before as [|r before IH]; intros clients Hok;
    cbn [app grpcTransportFactory_range].
  - destruct (GRPCDial rpcContext (Address (NodeDesc replica))) as [conn e].
    cbn [snd] in Hd. subst e.
    destruct (error_eqb (errors_Cause err) circuit_ErrBreakerOpen) eqn:E;
      [|reflexivity].
    apply error_eqb_eq in E. contradiction.
  - pose proof (Hok r) as Hr.
    destruct (GRPCDial rpcContext (Address (NodeDesc r))) as [conn [e|]].
    + destruct (error_eqb (errors_Cause e) circuit_ErrBreakerOpen) eqn:E.
      * apply IH. intros r' e' Hin. apply Hok. right. exact Hin.
      * exfalso. apply (Hr e); [left; reflexivity|]. cbn [snd].
        split; [reflexivity|]. intros Hc'. rewrite Hc' in E. discriminate.
    + apply IH. intros r' e' Hin. apply Hok. right. exact Hin.
Qed.

(** C8.  The factory skips a replica whose connection attempt fails with
    the circuit breaker open: the result is the one for the slice without
    that replica, and when no attempt fails in another way it is a session
    over the clients that could be dialed, partitioned by health (none at
    all when every breaker is open).  The first attempt that fails in
    another way makes the factory return that error and no session. *)
Theorem grpcTransportFactory_dial_errors (o : SendOptions)
    (rpcContext : rpc_Context) (args : BatchRequest) :
  (forall before replica after,
     breaker_open rpcContext replica ->
     grpcTransportFactory o rpcContext (before ++ replica :: after) args
     = grpcTransportFactory o rpcContext (before ++ after) args)
  /\ (forall replicas,
       (forall replica err, In replica replicas ->
                            ~ dial_fails rpcContext replica err) ->
       let clients := partitioned (dialed rpcContext args replicas) in
       grpcTransportFactory o rpcContext replicas args
       = (Some (mkGrpcTransport o rpcContext clients clients), None))
  /\ (forall replicas,
       Forall (breaker_open rpcContext) replicas ->
       grpcTransportFactory o rpcContext replicas args
       = (Some (mkGrpcTransport o rpcContext [] []), None))
  /\ (forall before replica after err,
       (forall r e, In r before -> ~ dial_fails rpcContext r e) ->
       dial_fails rpcContext replica err ->
       grpcTransportFactory o rpcContext (before ++ replica :: after) args
       = (None, Some err)).
Proof.
  split; [|split; [|split]].
  - intros before replica after Hopen. unfold grpcTransportFactory.
    rewrite (grpcTransportFactory_range_skip _ _ _ _ Hopen). reflexivity.
  - intros replicas Hok. cbv zeta. unfold grpcTransportFactory.
    rewrite (grpcTransportFactory_range_dialed _ _ _ Hok).
    cbn [app]. rewrite splitHealthy_eq. reflexivity.
  - intros replicas Hopen. unfold grpcTransportFactory.
    assert (Hrange : forall clients,
      grpcTransportFactory_range rpcContext args replicas clients
      = inl clients).
    { induction Hopen as [|r replicas (err & Hd & Hc) _ IH]; intros clients;
        cbn [grpcTransportFactory_range]; [reflexivity|].
      unfold dial_error in Hd.
      destruct (GRPCDial rpcContext (Address (NodeDesc r))) as [conn e].
      cbn [snd] in Hd. subst e. rewrite Hc. cbn [error_eqb]. apply IH. }
    rewrite Hrange. reflexivity.
  - intros before replica after err Hok Hfail. unfold grpcTransportFactory.
    rewrite (grpcTransportFactory_range_abort _ _ _ _ _ Hfail _ _ Hok).
    reflexivity.
Qed.

(** ** The sender transport *)


(** ** More on the health partitioner *)

(** X1.  [byHealth.Less] is a strict weak ordering of the positions of a
    slice, as [sort.Stable] requires: no position is less than itself, two
    positions are never less than each other, being less is transitive, and
    so is being unordered (through a position that is in range). *)
Theorem byHealth_Less_strict_weak_order (h : list batchClient) :
  (forall i, sort.Less h i i = false)
  /\ (forall i j, sort.Less h i j = true -> sort.Less h j i = false)
  /\ (forall i j k,
        sort.Less h i j = true -> sort.Less h j k = true ->
        sort.Less h i k = true)
  /\ (forall i j k,
        j < length h ->
        sort.Less h i j = false -> sort.Less h j i = false ->
        sort.Less h j k = false -> sort.Less h k j = false ->
        sort.Less h i k = false /\ sort.Less h k i = false).
Proof.
  cbn [sort.Less byHealth]. split; [|split; [|split]].
  - intros i. destruct (h !! i) as [x|]; [|reflexivity].
    destruct (healthy x); reflexivity.
  - intros i j. destruct (h !! i) as [x|], (h !! j) as [y|]; try discriminate.
    destruct (healthy x), (healthy y); auto.
  - intros i j k.
    destruct (h !! i) as [x|], (h !! j) as [y|], (h !! k) as [z|];
      try discriminate.
    destruct (healthy x), (healthy y), (healthy z); auto.
  - intros i j k Hj.
    destruct (lookup_lt_is_Some_2 h j Hj) as [y Hy]. rewrite Hy.
    destruct (h !! i) as [x|], (h !! k) as [z|]; auto.
    destruct (healthy x), (healthy y), (healthy z); cbn; auto; discriminate.
Qed.

(** X2.  [byHealth.Swap] on two positions in range exchanges the two
    clients, leaves every other position and the length as they are, and
    undoes itself when applied again. *)
Theorem byHealth_Swap_exchanges (h : list batchClient) (i j : nat)
    (x y : batchClient) :
  h !! i = Some x ->
  h !! j = Some y ->
  sort.Swap h i j !! i = Some y
  /\ sort.Swap h i j !! j = Some x
  /\ (forall k, k <> i -> k <> j -> sort.Swap h i j !! k = h !! k)
  /\ length (sort.Swap h i j) = length h
  /\ sort.Swap (sort.Swap h i j) i j = h.
Proof.
  intros Hi Hj.
  pose proof (lookup_lt_Some _ _ _ Hi) as Hli.
  pose proof (lookup_lt_Some _ _ _ Hj) as Hlj.
  assert (Hswap : sort.Swap h i j = <[j:=x]> (<[i:=y]> h)).
  { cbn [sort.Swap byHealth]. rewrite Hi, Hj. reflexivity. }
  assert (Hsi : sort.Swap h i j !! i = Some y).
  { rewrite Hswap. destruct (decide (i = j)) as [->|Hne].
    - rewrite list_lookup_insert_eq by (rewrite length_insert; lia).
      congruence.
    - rewrite list_lookup_insert_ne by congruence.
      apply list_lookup_insert_eq. lia. }
  assert (Hsj : sort.Swap h i j !! j = Some x).
  { rewrite Hswap. apply list_lookup_insert_eq. rewrite length_insert. lia. }
  assert (Hsk : forall k, k <> i -> k <> j -> sort.Swap h i j !! k = h !! k).
  { intros k Hki Hkj. rewrite Hswap.
    rewrite !list_lookup_insert_ne by congruence. reflexivity. }
  assert (Hlen : length (sort.Swap h i j) = length h).
  { rewrite Hswap, !length_insert. reflexivity. }
  repeat (split; [assumption|]).
  cbn [sort.Swap byHealth] in Hsi, Hsj, Hsk, Hlen |- *.
  rewrite Hi, Hj in Hsi, Hsj, Hsk, Hlen |- *. rewrite Hsi, Hsj.
  apply list_eq. intros k.
  destruct (decide (k = j)) as [->|Hkj].
  - rewrite list_lookup_insert_eq by (rewrite length_insert, Hlen; lia).
    congruence.
  - rewrite list_lookup_insert_ne by congruence.
    destruct (decide (k = i)) as [->|Hki].
    + rewrite list_lookup_insert_eq by (rewrite Hlen; lia). congruence.
    + rewrite list_lookup_insert_ne by congruence. apply Hsk; assumption.
Qed.

Lemma filter_all {A} (f : A -> bool) (l : list A) :
  Forall (fun x => f x = true) l -> List.filter f l = l.
Proof.
  induction 1 as [|x l Hx _ IH]; [reflexivity|].
  cbn [List.filter]. rewrite Hx, IH. reflexivity.
Qed.

Lemma filter_none {A} (f : A -> bool) (l : list A) :
  Forall (fun x => f x = false) l -> List.filter f l = [].
Proof.
  induction 1 as [|x l Hx _ IH]; [reflexivity|].
  cbn [List.filter]. rewrite Hx, IH. reflexivity.
Qed.

Lemma partitioned_app (H U : list batchClient) :
  Forall (fun c => healthy c = true) H ->
  Forall (fun c => healthy c = false) U ->
  partitioned (H ++ U) = H ++ U.
Proof.
  intros HH HU. unfold partitioned. rewrite !List.filter_app.
  rewrite (filter_all healthy H HH), (filter_none healthy U HU).
  rewrite (filter_none unhealthy H), (filter_all unhealthy U).
  - rewrite app_nil_r. reflexivity.
  - eapply Forall_impl; [exact HU|]. unfold unhealthy. cbn.
    intros c ->. reflexivity.
  - eapply Forall_impl; [exact HH|]. unfold unhealthy. cbn.
    intros c ->. reflexivity.
Qed.

(** X3.  The partitioner loses and duplicates no client: the slice it
    returns is a rearrangement of its input, of the same length, and the
    count it returns is at most that length. *)
Theorem splitHealthy_Permutation (clients : list batchClient) :
  fst (splitHealthy clients) ≡ₚ clients
  /\ length (fst (splitHealthy clients)) = length clients
  /\ snd (splitHealthy clients) <= length clients.
Proof.
  rewrite splitHealthy_eq. cbn [fst snd].
  split; [apply filter_complement_Permutation|].
  split; [apply partitioned_length|].
  rewrite <- (partitioned_length clients). unfold partitioned.
  rewrite length_app. lia.
Qed.

(** X4.  A slice whose healthy clients already come first is returned as it
    is, with the number of its healthy clients; in particular partitioning a
    second time changes nothing. *)
Theorem splitHealthy_partitioned_fixed (clients : list batchClient) :
  (forall H U,
     Forall (fun c => healthy c = true) H ->
     Forall (fun c => healthy c = false) U ->
     splitHealthy (H ++ U) = (H ++ U, length H))
  /\ splitHealthy (fst (splitHealthy clients)) = splitHealthy clients.
Proof.
  assert (Hfixed : forall H U,
            Forall (fun c => healthy c = true) H ->
            Forall (fun c => healthy c = false) U ->
            splitHealthy (H ++ U) = (H ++ U, length H)).
  { intros H U HH HU. rewrite splitHealthy_eq, partitioned_app by assumption.
    rewrite List.filter_app, (filter_all healthy H HH),
      (filter_none healthy U HU), app_nil_r.
    reflexivity. }
  split; [exact Hfixed|].
  rewrite (splitHealthy_eq clients). cbn [fst]. unfold partitioned at 1.
  rewrite Hfixed
    by auto using filter_healthy_Forall, filter_unhealthy_Forall.
  reflexivity.
Qed.

(** ** More on the factory *)

Lemma dial_fails_dec (rpcContext : rpc_Context) (replica : ReplicaInfo) :
  (forall err, ~ dial_fails rpcContext replica err)
  \/ (exists err, dial_fails rpcContext replica err).
Proof.
  unfold dial_fails. destruct (dial_error rpcContext replica) as [e|].
  - destruct (error_eqb (errors_Cause e) circuit_ErrBreakerOpen) eqn:E.
    + apply error_eqb_eq in E. left. intros err [[= <-] Hc]. contradiction.
    + right. exists e. split; [reflexivity|]. intros Hc.
      apply error_eqb_eq in Hc. congruence.
  - left. intros err [Hd _]. discriminate Hd.
Qed.

(** Either no connection attempt fails other than by an open breaker, or
    there is a first one that does. *)
Lemma first_dial_failure (rpcContext : rpc_Context) (replicas : ReplicaSlice) :
  (forall replica err, In replica replicas ->
                       ~ dial_fails rpcContext replica err)
  \/ (exists before replica after err,
        replicas = before ++ replica :: after
        /\ (forall r e, In r before -> ~ dial_fails rpcContext r e)
        /\ dial_fails rpcContext replica err).
Proof.
  induction replicas as [|r replicas IH].
  - left. intros replica err [].
  - destruct (dial_fails_dec rpcContext r) as [Hok | [err Hfail]].
    + destruct IH as [Hall | (before & replica & after & err & -> & Hb & Hf)].
      * left. intros replica err [<- | Hin]; [apply Hok | apply Hall, Hin].
      * right. exists (r :: before), replica, after, err.
        split; [reflexivity|]. split; [|exact Hf].
        intros r' e [<- | Hin]; [apply Hok | apply Hb, Hin].
    + right. exists [], r, replicas, err.
      split; [reflexivity|]. split; [intros r' e []|exact Hfail].
Qed.

(** X5.  The factory returns a session or an error, never both and never
    neither.  It returns a session exactly when no connection attempt fails
    other than by an open breaker; otherwise it returns the error of the
    first attempt that does, whatever the attempts after it would give. *)
Theorem grpcTransportFactory_outcome (o : SendOptions)
    (rpcContext : rpc_Context) (replicas : ReplicaSlice)
    (args : BatchRequest) :
  ((forall replica err, In replica replicas ->
                        ~ dial_fails rpcContext replica err)
   /\ exists gt,
        grpcTransportFactory o rpcContext replicas args = (Some gt, None))
  \/ (exists before replica after err,
        replicas = before ++ replica :: after
        /\ (forall r e, In r before -> ~ dial_fails rpcContext r e)
        /\ dial_fails rpcContext replica err
        /\ grpcTransportFactory o rpcContext replicas args
           = (None, Some err)).
Proof.
  destruct (first_dial_failure rpcContext replicas)
    as [Hok | (before & replica & after & err & -> & Hb & Hf)].
  - left. split; [exact Hok|]. unfold grpcTransportFactory.
    rewrite (grpcTransportFactory_range_dialed _ _ _ Hok). eauto.
  - right. exists before, replica, after, err.
    repeat (split; [assumption || reflexivity|]).
    unfold grpcTransportFactory.
    rewrite (grpcTransportFactory_range_abort _ _ _ _ _ Hf _ _ Hb).
    reflexivity.
Qed.

Lemma In_dialed (rpcContext : rpc_Context) (template : BatchRequest)
    (replicas : ReplicaSlice) (c : batchClient) :
  In c (dialed rpcContext template replicas) ->
  exists replica,
    In replica replicas
    /\ GRPCDial rpcContext (Address (NodeDesc replica)) = (conn c, None)
    /\ remoteAddr c = Address (NodeDesc replica)
    /\ client c = Some (NewInternalClient (conn c))
    /\ args c = mkBatchRequest (ReplicaInfo_ReplicaDescriptor replica)
                               (Requests template)
    /\ healthy c = IsConnHealthy rpcContext (Address (NodeDesc replica)).
Proof.
  unfold dialed. intros Hin. apply in_flat_map in Hin as (replica & Hr & Hc).
  exists replica. split; [exact Hr|].
  destruct (GRPCDial rpcContext (Address (NodeDesc replica))) as [cn [e|]];
    [destruct Hc|].
  destruct Hc as [<- | []]. cbn. auto.
Qed.

Lemma dialed_length (rpcContext : rpc_Context) (args : BatchRequest)
    (replicas : ReplicaSlice) :
  length (dialed rpcContext args replicas) <= length replicas.
Proof.
  induction replicas as [|r replicas IH]; [reflexivity|].
  cbn [dialed flat_map length]. fold (dialed rpcContext args replicas).
  rewrite length_app.
  destruct (GRPCDial rpcContext (Address (NodeDesc r))) as [cn [e|]];
    cbn [length]; lia.
Qed.

(** X6.  In a session the factory returns, the remaining list is the full
    set, there are at most as many clients as replicas, and every client
    stands for a replica of the slice whose connection attempt succeeded: it
    has that replica's address, the connection dialed and a client stub on
    it, the request template stamped with the replica's descriptor, and the
    health of the connection at that moment. *)
Theorem grpcTransportFactory_session (o : SendOptions)
    (rpcContext : rpc_Context) (replicas : ReplicaSlice)
    (template : BatchRequest) (gt : grpcTransport) :
  fst (grpcTransportFactory o rpcContext replicas template) = Some gt ->
  orderedClients gt = allOrderedClients gt
  /\ opts gt = o
  /\ length (allOrderedClients gt) <= length replicas
  /\ forall c, In c (allOrderedClients gt) ->
       exists replica,
         In replica replicas
         /\ GRPCDial rpcContext (Address (NodeDesc replica)) = (conn c, None)
         /\ remoteAddr c = Address (NodeDesc replica)
         /\ client c = Some (NewInternalClient (conn c))
         /\ Replica (args c) = ReplicaInfo_ReplicaDescriptor replica
         /\ Requests (args c) = Requests template
         /\ healthy c = IsConnHealthy rpcContext (Address (NodeDesc replica)).
Proof.
  destruct (first_dial_failure rpcContext replicas)
    as [Hok | (before & replica & after & err & -> & Hb & Hf)].
  - unfold grpcTransportFactory.
    rewrite (grpcTransportFactory_range_dialed _ _ _ Hok).
    cbn [app]. rewrite splitHealthy_eq. cbn [fst].
    intros [= <-]. cbn [orderedClients allOrderedClients opts].
    split; [reflexivity|]. split; [reflexivity|].
    split; [rewrite partitioned_length; apply dialed_length|].
    intros c Hc.
    assert (Hd : In c (dialed rpcContext template replicas)).
    { apply list_elem_of_In. apply list_elem_of_In in Hc.
      rewrite <- (filter_complement_Permutation healthy). exact Hc. }
    apply In_dialed in Hd as (r & Hr & Hdial & Haddr & Hstub & Hargs & Hh).
    exists r. rewrite Hargs. cbn. auto 10.
  - unfold grpcTransportFactory.
    rewrite (grpcTransportFactory_range_abort _ _ _ _ _ Hf _ _ Hb).
    discriminate.
Qed.

(** ** Sessions at their limits *)

(** X7.  [IsExhausted] is the exact guard of [SendNext]: when it answers
    true [SendNext] panics with an index out of range, and when it answers
    false [SendNext] completes. *)
Theorem grpcTransport_SendNext_guard (w : World grpcTransport) :
  (grpcTransport_IsExhausted w = Ok (true, w)
   /\ grpcTransport_SendNext w = Panic IndexOutOfRange)
  \/ (grpcTransport_IsExhausted w = Ok (false, w)
      /\ exists addr w', grpcTransport_SendNext w = Ok (addr, w')).
Proof.
  rewrite grpcTransport_IsExhausted_eq, grpcTransport_SendNext_eq. cbv zeta.
  destruct (orderedClients (self w)) as [|c rest]; [left; auto|].
  right. split; [reflexivity|].
  destruct enableLocalCalls;
    [destruct (GetLocalInternalServerForAddr (rpcContext (self w))
                                             (remoteAddr c))|];
    eauto.
Qed.

(** X8.  When every connection attempt finds the breaker open (or there is
    no replica at all), the factory still returns a session, and that
    session is exhausted from the start: [IsExhausted] answers true,
    [SendNext] panics and [TryNext] fails for every replica. *)
Theorem grpcTransportFactory_born_exhausted (o : SendOptions)
    (rpcContext : rpc_Context) (replicas : ReplicaSlice)
    (template : BatchRequest) :
  Forall (breaker_open rpcContext) replicas ->
  exists gt,
    grpcTransportFactory o rpcContext replicas template = (Some gt, None)
    /\ forall sent started logged,
         let w := mkWorld gt sent started logged in
         grpcTransport_IsExhausted w = Ok (true, w)
         /\ grpcTransport_SendNext w = Panic IndexOutOfRange
         /\ forall replica,
              grpcTransport_TryNext replica w
              = Ok (Some (errors_New "transport is exhausted"), w).
Proof.
  intros Hopen.
  assert (Hrange : forall clients,
    grpcTransportFactory_range rpcContext template replicas clients
    = inl clients).
  { induction Hopen as [|r replicas (err & Hd & Hc) _ IH]; intros clients;
      cbn [grpcTransportFactory_range]; [reflexivity|].
    unfold dial_error in Hd.
    destruct (GRPCDial rpcContext (Address (NodeDesc r))) as [cn e].
    cbn [snd] in Hd. subst e. rewrite Hc. cbn [error_eqb]. apply IH. }
  eexists. split.
  - unfold grpcTransportFactory. rewrite Hrange. reflexivity.
  - intros sent started logged. cbv zeta.
    split; [reflexivity|]. split; [reflexivity|].
    intros replica. rewrite grpcTransport_TryNext_eq. reflexivity.
Qed.

(** ** What each step of a session keeps *)

Lemma In_take {A} (l : list A) (n : nat) (x : A) : In x (take n l) -> In x l.
Proof.
  intros Hin. rewrite <- (take_drop n l). apply in_or_app. left. exact Hin.
Qed.

Lemma replicas_of_present (replica : ReplicaDescriptor)
    (clients : list batchClient) :
  In replica (replicas_of clients) <-> present replica clients.
Proof.
  unfold replicas_of, present. rewrite in_map_iff.
  split; intros (c & H1 & H2); exists c; auto.
Qed.

Lemma replicas_of_take_NoDup (clients : list batchClient) (n : nat) :
  NoDup (replicas_of clients) -> NoDup (replicas_of (take n clients)).
Proof.
  intros Hnd. rewrite <- (take_drop n clients) in Hnd.
  unfold replicas_of in *. rewrite List.map_app in Hnd.
  apply NoDup_app in Hnd as [Hnd _]. exact Hnd.
Qed.

Lemma grpcTransport_TryNext_step (replica : ReplicaDescriptor)
    (w w' : World grpcTransport) (err : option error) :
  grpcTransport_TryNext replica w = Ok (err, w') ->
  allOrderedClients (self w') = allOrderedClients (self w)
  /\ opts (self w') = opts (self w)
  /\ rpcContext (self w') = rpcContext (self w)
  /\ chan_done w' = chan_done w
  /\ goroutines w' = goroutines w
  /\ error_log w' = error_log w
  /\ length (orderedClients (self w')) = length (orderedClients (self w))
  /\ (forall c, In c (orderedClients (self w')) ->
        In c (orderedClients (self w)) \/ In c (allOrderedClients (self w)))
  /\ (NoDup (replicas_of (orderedClients (self w))) ->
      NoDup (replicas_of (orderedClients (self w')))).
Proof.
  rewrite grpcTransport_TryNext_eq. cbv zeta.
  destruct (length (orderedClients (self w)) =? 0) eqn:Hlen;
    [intros [= <- <-]; auto 10|].
  destruct (ReplicaID replica =? 0)%Z; [intros [= <- <-]; auto 10|].
  destruct (range_find replica (orderedClients (self w)) 0) as [[i c]|] eqn:H1;
    [intros [= <- <-]; auto 10|].
  destruct (range_find replica (allOrderedClients (self w)) 0)
    as [[i c]|] eqn:H2; [|intros [= <- <-]; auto 10].
  intros [= <- <-]. cbn.
  apply Nat.eqb_neq in Hlen.
  apply range_find_Some in H2 as (before & after & Hall & _ & Hc & _).
  apply range_find_None in H1.
  repeat (split; [reflexivity|]). split; [|split].
  - rewrite length_take. lia.
  - intros c' [<- | Hin].
    + right. rewrite Hall. apply in_or_app. right. left. reflexivity.
    + left. apply In_take in Hin. exact Hin.
  - intros Hnd. constructor.
    + rewrite list_elem_of_In. fold (replicas_of
        (take (length (orderedClients (self w)) - 1)
              (orderedClients (self w)))).
      rewrite replicas_of_present. intros (c' & Hin & Hc').
      apply H1. exists c'. split; [eapply In_take; exact Hin | congruence].
    + apply replicas_of_take_NoDup. exact Hnd.
Qed.

Lemma grpcTransport_TryNext_completes (replica : ReplicaDescriptor)
    (w : World grpcTransport) :
  exists err w', grpcTransport_TryNext replica w = Ok (err, w').
Proof.
  rewrite grpcTransport_TryNext_eq. cbv zeta.
  destruct (length (orderedClients (self w)) =? 0); [eauto|].
  destruct (ReplicaID replica =? 0)%Z; [eauto|].
  destruct (range_find replica (orderedClients (self w)) 0) as [[i c]|];
    [eauto|].
  destruct (range_find replica (allOrderedClients (self w)) 0) as [[i c]|];
    eauto.
Qed.

Lemma grpcTransport_SendNext_step (w w' : World grpcTransport)
    (addr : string) :
  grpcTransport_SendNext w = Ok (addr, w') ->
  exists c,
    orderedClients (self w) = c :: orderedClients (self w')
    /\ addr = remoteAddr c
    /\ allOrderedClients (self w') = allOrderedClients (self w)
    /\ opts (self w') = opts (self w)
    /\ rpcContext (self w') = rpcContext (self w)
    /\ error_log w' = error_log w
    /\ ((exists call, chan_done w' = chan_done w ++ [call]
                      /\ goroutines w' = goroutines w)
        \/ (chan_done w' = chan_done w
            /\ goroutines w' = goroutines w ++ [go_SendNext (opts (self w)) c])).
Proof.
  rewrite grpcTransport_SendNext_eq. cbv zeta.
  destruct (orderedClients (self w)) as [|c rest]; [discriminate|].
  destruct enableLocalCalls;
    [destruct (GetLocalInternalServerForAddr (rpcContext (self w))
                                             (remoteAddr c))|];
    intros [= <- <-]; exists c; cbn; eauto 12.
Qed.

Lemma run_goroutine_step {T} (g : goroutine) (v v' : World T) :
  run_goroutine g v = Ok (tt, v') ->
  self v' = self v /\ goroutines v' = goroutines v
  /\ exists call, chan_done v' = chan_done v ++ [call].
Proof.
  intros Hg. destruct (run_goroutine_self g v v' Hg) as [Hs Hp].
  destruct (run_goroutine_sends_one g v v' Hg) as [call Hc]. eauto.
Qed.

(** ** Sessions with TryNext *)

Ltac session_induction H :=
  induction H as [|k w addr w' _ IH Hs|k w b w' _ IH Hq|k w r e w' _ IH Ht
                  |k w w' _ IH Hc|k w before g after w' _ IH Hp Hg];
  [ | apply grpcTransport_SendNext_step in Hs
    | rewrite grpcTransport_IsExhausted_eq in Hq; injection Hq as _ <-
    | apply grpcTransport_TryNext_step in Ht
    | injection Hc as <-
    | apply run_goroutine_step in Hg ].

(** X9.  [TryNext] never changes how many candidates remain.  So whatever
    calls to [TryNext] a session sees, after [k] completed [SendNext] calls
    it has [k] candidates fewer than at the start, [IsExhausted] answers
    true exactly when [k] is the number it started with, and no more sends
    than that ever complete. *)
Theorem session_run_remaining (w0 w : World grpcTransport) (k : nat) :
  session_run w0 k w ->
  length (orderedClients (self w)) + k = length (orderedClients (self w0))
  /\ k <= length (orderedClients (self w0))
  /\ grpcTransport_IsExhausted w
     = Ok (k =? length (orderedClients (self w0)), w).
Proof.
  intros Hrun.
  assert (Hlen : length (orderedClients (self w)) + k
                 = length (orderedClients (self w0))).
  { session_induction Hrun.
    - lia.
    - destruct Hs as (c & Hoc & _). rewrite Hoc in IH. cbn [length] in IH.
      lia.
    - exact IH.
    - destruct Ht as (_ & _ & _ & _ & _ & _ & Hl & _). lia.
    - exact IH.
    - destruct Hg as (Hs & _). rewrite Hs. exact IH. }
  split; [exact Hlen|]. split; [lia|].
  rewrite grpcTransport_IsExhausted_eq. f_equal. f_equal.
  destruct (Nat.eqb_spec (length (orderedClients (self w))) 0);
    destruct (Nat.eqb_spec k (length (orderedClients (self w0)))); lia.
Qed.

(** X10.  No operation of a session touches the full candidate set, the
    send options or the rpc context, and the remaining candidates stay
    among the full set when they start there. *)
Theorem session_run_frame (w0 w : World grpcTransport) (k : nat) :
  session_run w0 k w ->
  allOrderedClients (self w) = allOrderedClients (self w0)
  /\ opts (self w) = opts (self w0)
  /\ rpcContext (self w) = rpcContext (self w0)
  /\ ((forall c, In c (orderedClients (self w0)) ->
                 In c (allOrderedClients (self w0))) ->
      forall c, In c (orderedClients (self w)) ->
                In c (allOrderedClients (self w))).
Proof.
  intros Hrun. session_induction Hrun.
  - auto.
  - destruct Hs as (c & Hoc & _ & Ha & Ho & Hr & _).
    destruct IH as (IHa & IHo & IHr & IHin).
    repeat (split; [congruence|]). intros H0 c' Hin.
    rewrite Ha. apply IHin; [exact H0|]. rewrite Hoc. right. exact Hin.
  - exact IH.
  - destruct Ht as (Ha & Ho & Hr & _ & _ & _ & _ & Hin & _).
    destruct IH as (IHa & IHo & IHr & IHin).
    repeat (split; [congruence|]). intros H0 c' Hc'.
    rewrite Ha. destruct (Hin c' Hc') as [Hold | Hall]; auto.
  - exact IH.
  - destruct Hg as (Hs & _). cbn [pending self] in Hs. rewrite Hs. exact IH.
Qed.

(** X11.  When no two remaining candidates stand for the same replica, this
    stays so through every operation of the session, re-insertions by
    [TryNext] included. *)
Theorem session_run_NoDup (w0 w : World grpcTransport) (k : nat) :
  session_run w0 k w ->
  NoDup (replicas_of (orderedClients (self w0))) ->
  NoDup (replicas_of (orderedClients (self w))).
Proof.
  intros Hrun Hnd. session_induction Hrun.
  - exact Hnd.
  - destruct Hs as (c & Hoc & _). rewrite Hoc in IH.
    cbn [replicas_of List.map] in IH. apply NoDup_cons in IH as [_ IH].
    exact IH.
  - auto.
  - destruct Ht as (_ & _ & _ & _ & _ & _ & _ & _ & Hn). auto.
  - auto.
  - destruct Hg as (Hs & _). cbn [pending self] in Hs. rewrite Hs. auto.
Qed.

(** X12.  Every completed [SendNext] accounts for one outcome, through any
    operations of the session: the calls on the channel and the goroutines
    still pending are together as many as at the start plus the number of
    completed sends, and what was on the channel stays there, in order. *)
Theorem session_run_outcomes (w0 w : World grpcTransport) (k : nat) :
  session_run w0 k w ->
  length (chan_done w) + length (goroutines w)
  = length (chan_done w0) + length (goroutines w0) + k
  /\ exists calls, chan_done w = chan_done w0 ++ calls.
Proof.
  intros Hrun. session_induction Hrun.
  - split; [lia | exists []; rewrite app_nil_r; reflexivity].
  - destruct IH as (IHn & calls & IHc).
    destruct Hs as (c & _ & _ & _ & _ & _ & _
                    & [(call & Hd & Hg) | (Hd & Hg)]);
      rewrite Hd, Hg, ?length_app; cbn [length].
    + split; [lia|]. exists (calls ++ [call]).
      rewrite IHc, <- app_assoc. reflexivity.
    + split; [lia|]. exists calls. exact IHc.
  - exact IH.
  - destruct Ht as (_ & _ & _ & Hd & Hg & _). rewrite Hd, Hg. exact IH.
  - exact IH.
  - destruct IH as (IHn & calls & IHc).
    destruct Hg as (_ & Hg & call & Hd). cbn [pending chan_done goroutines]
      in Hg, Hd.
    rewrite Hd, Hg, ?length_app. rewrite Hp, length_app in IHn.
    cbn [length] in *. split; [lia|].
    exists (calls ++ [call]). rewrite IHc, <- app_assoc. reflexivity.
Qed.

(** X13.  On a session that never sees [TryNext], the candidates are sent
    to in the order of the list, each once: after [k] completed sends the
    remaining list is the original one without its first [k] entries, and
    the next [SendNext] returns the address of entry [k]. *)
Theorem run_dispatch_order (w0 w : World grpcTransport) (k : nat) :
  run w0 k w ->
  orderedClients (self w) = drop k (orderedClients (self w0))
  /\ forall addr w',
       grpcTransport_SendNext w = Ok (addr, w') ->
       exists c,
         orderedClients (self w0) !! k = Some c /\ addr = remoteAddr c.
Proof.
  intros Hrun.
  assert (Hdrop : orderedClients (self w) = drop k (orderedClients (self w0))).
  { induction Hrun as [|k w addr w' _ IH Hs|k w b w' _ IH Hq|k w w' _ IH Hc
                       |k w before g after w' _ IH Hp Hg].
    - reflexivity.
    - apply grpcTransport_SendNext_step in Hs as (c & Hoc & _).
      rewrite IH in Hoc.
      replace (S k) with (k + 1) by lia.
      rewrite <- drop_drop, Hoc. reflexivity.
    - rewrite grpcTransport_IsExhausted_eq in Hq. injection Hq as _ <-.
      exact IH.
    - injection Hc as <-. exact IH.
    - apply run_goroutine_step in Hg as (Hs & _). rewrite Hs. exact IH. }
  split; [exact Hdrop|]. intros addr w' Hs.
  apply grpcTransport_SendNext_step in Hs as (c & Hoc & Haddr & _).
  exists c. split; [|exact Haddr].
  rewrite Hdrop in Hoc.
  assert (Hl : drop k (orderedClients (self w0)) !! 0 = Some c)
    by (rewrite Hoc; reflexivity).
  rewrite lookup_drop, Nat.add_0_r in Hl. exact Hl.
Qed.

(** ** More on TryNext *)

(** X14.  [TryNext] never panics, sends nothing and starts no goroutine,
    and when it returns an error it leaves the whole session as it was. *)
Theorem grpcTransport_TryNext_safe (replica : ReplicaDescriptor)
    (w : World grpcTransport) :
  exists err w',
    grpcTransport_TryNext replica w = Ok (err, w')
    /\ chan_done w' = chan_done w
    /\ goroutines w' = goroutines w
    /\ error_log w' = error_log w
    /\ (err <> None -> w' = w).
Proof.
  destruct (grpcTransport_TryNext_completes replica w) as (err & w' & Ht).
  exists err, w'. split; [exact Ht|].
  destruct (grpcTransport_TryNext_step _ _ _ _ Ht)
    as (_ & _ & _ & Hd & Hg & Hl & _).
  repeat (split; [assumption|]).
  revert Ht. rewrite grpcTransport_TryNext_eq. cbv zeta.
  destruct (length (orderedClients (self w)) =? 0); [congruence|].
  destruct (ReplicaID replica =? 0)%Z; [congruence|].
  destruct (range_find replica (orderedClients (self w)) 0) as [[i c]|];
    [congruence|].
  destruct (range_find replica (allOrderedClients (self w)) 0) as [[i c]|];
    congruence.
Qed.

(** X15.  [TryNext] is idempotent: a second call with the same replica
    returns what the first returned and changes nothing more. *)
Theorem grpcTransport_TryNext_idempotent (replica : ReplicaDescriptor)
    (w w' : World grpcTransport) (err : option error) :
  grpcTransport_TryNext replica w = Ok (err, w') ->
  grpcTransport_TryNext replica w' = Ok (err, w').
Proof.
  intros Ht. pose proof Ht as Ht'. revert Ht'.
  rewrite grpcTransport_TryNext_eq. cbv zeta.
  destruct (length (orderedClients (self w)) =? 0) eqn:Hlen;
    [intros [= <- <-]; exact Ht|].
  destruct (ReplicaID replica =? 0)%Z eqn:Hid; [intros [= <- <-]; exact Ht|].
  destruct (range_find replica (orderedClients (self w)) 0) as [[i c]|] eqn:H1;
    [intros [= <- <-]; exact Ht|].
  destruct (range_find replica (allOrderedClients (self w)) 0)
    as [[i c]|] eqn:H2; [|intros [= <- <-]; exact Ht].
  intros [= <- <-].
  apply range_find_Some in H2 as (_ & _ & _ & _ & Hc & _).
  apply ReplicaDescriptor_eqb_eq in Hc.
  rewrite grpcTransport_TryNext_eq. cbv zeta.
  cbn [with_self self set_orderedClients orderedClients length Nat.eqb
       range_find].
  rewrite Hid, Hc. reflexivity.
Qed.

(** X16.  After [TryNext] has re-inserted a candidate that was already
    tried, the very next [SendNext] goes to that candidate's address, and
    what then remains is the old remaining list without its last entry. *)
Theorem grpcTransport_TryNext_then_SendNext (replica : ReplicaDescriptor)
    (w : World grpcTransport) :
  orderedClients (self w) <> [] ->
  ReplicaID replica <> 0%Z ->
  ~ present replica (orderedClients (self w)) ->
  present replica (allOrderedClients (self w)) ->
  exists c front lst w1 w2,
    orderedClients (self w) = front ++ [lst]
    /\ grpcTransport_TryNext replica w = Ok (None, w1)
    /\ In c (allOrderedClients (self w))
    /\ Replica (args c) = replica
    /\ grpcTransport_SendNext w1 = Ok (remoteAddr c, w2)
    /\ orderedClients (self w2) = front.
Proof.
  intros Hne Hid Hnp Hp. rewrite grpcTransport_TryNext_eq. cbv zeta.
  destruct (orderedClients (self w)) as [|lst front _] eqn:Hoc using rev_ind;
    [contradiction|].
  rewrite length_app. cbn [length].
  replace (length front + 1 =? 0) with false
    by (symmetry; apply Nat.eqb_neq; lia).
  apply Z.eqb_neq in Hid. rewrite Hid.
  apply range_find_None with (i := 0) in Hnp. rewrite Hnp.
  destruct (range_find replica (allOrderedClients (self w)) 0)
    as [[i c]|] eqn:Hf; [|apply range_find_None in Hf; contradiction].
  apply range_find_Some in Hf as (before & after & Hall & _ & Hc & _).
  replace (length front + 1 - 1) with (length front) by lia.
  rewrite take_app_length.
  set (w1 := with_self (set_orderedClients (c :: front) (self w)) w).
  destruct (grpcTransport_SendNext_completes w1) as (addr & w2 & Hs);
    [discriminate|].
  exists c, front, lst, w1, w2.
  split; [reflexivity|]. split; [reflexivity|].
  split; [rewrite Hall; apply in_or_app; right; left; reflexivity|].
  split; [exact Hc|].
  pose proof Hs as Hs'.
  apply grpcTransport_SendNext_step in Hs' as (c' & Hoc' & Haddr & _).
  cbn in Hoc'. injection Hoc' as <- <-. subst addr. auto.
Qed.

(** ** The sender transport, from factory to exhaustion *)

(** X17.  A sender transport is good for one send, whatever replicas the
    factory is given.  Fresh, it is not exhausted.  Its [SendNext] returns
    the empty address and puts one call on the channel: [Err] is nil and the
    reply carries what the sender returned as its error, with the sender's
    responses (none when the sender returned no reply).  After that it is
    exhausted, and a further [SendNext] panics. *)
Theorem senderTransport_single_use (s : Sender) (o : SendOptions)
    (rpcContext : rpc_Context) (replicas : ReplicaSlice)
    (template : BatchRequest)
    (sent : list BatchCall) (started : list goroutine) (logged : list error) :
  ~ embeds_error (Send s context_Background template) ->
  exists st w1,
    SenderTransportFactory s o rpcContext replicas template = (Some st, None)
    /\ senderTransport_IsExhausted (mkWorld st sent started logged)
       = Ok (false, mkWorld st sent started logged)
    /\ senderTransport_SendNext (mkWorld st sent started logged)
       = Ok ("", w1)
    /\ chan_done w1
       = sent
         ++ [mkBatchCall
               (Some (mkBatchResponse
                        (snd (Send s context_Background template))
                        (match fst (Send s context_Background template) with
                         | Some br => Responses br
                         | None => []
                         end)))
               None]
    /\ goroutines w1 = started
    /\ senderTransport_IsExhausted w1 = Ok (true, w1)
    /\ senderTransport_SendNext w1
       = Panic (PanicString "called an exhausted transport").
Proof.
  intros Hclean.
  exists (mkSenderTransport s template false).
  exists (mkWorld (mkSenderTransport s template true)
            (sent
             ++ [mkBatchCall
                   (Some (mkBatchResponse
                            (snd (Send s context_Background template))
                            (match fst (Send s context_Background template)
                             with
                             | Some br => Responses br
                             | None => []
                             end)))
                   None])
            started logged).
  split; [reflexivity|]. split; [reflexivity|].
  unfold senderTransport_SendNext, bind, get_self.
  cbn [self called sender senderTransport_args set_self modify].
  destruct (Send s context_Background template) as [br pErr] eqn:Hsend.
  assert (Hnone : Error (match br with
                         | Some br => br
                         | None => mkBatchResponse None []
                         end) = None).
  { destruct br as [reply|]; [|reflexivity].
    destruct (Error reply) as [e|] eqn:He; [|reflexivity].
    exfalso. apply Hclean. exists reply, e. auto. }
  rewrite Hnone. cbn [fst snd].
  split; [destruct br; reflexivity|]. cbn. auto.
Qed.

(** ** The goroutine of SendNext *)


(** X18.  A failed verification is only logged.  When the reply has no
    more responses than the request has requests, the goroutine puts on the
    channel exactly what the client stub returned, reply and error, and adds
    to the log the verification errors of the responses, in order; the
    session and the pool are not touched. *)
Theorem run_goroutine_delivers {T} (o : SendOptions) (c : batchClient)
    (stub : InternalClient) (v : World T) :
  client c = Some stub ->
  (forall reply,
     fst (InternalClient_Batch stub (contextWithTimeout o) (args c))
     = Some reply ->
     length (Responses reply) <= length (Requests (args c))) ->
  run_goroutine (go_SendNext o c) v
  = Ok (tt,
        mkWorld (self v)
          (chan_done v
           ++ [mkBatchCall
                 (fst (InternalClient_Batch stub (contextWithTimeout o)
                                            (args c)))
                 (snd (InternalClient_Batch stub (contextWithTimeout o)
                                            (args c)))])
          (goroutines v)
          (error_log v
           ++ match fst (InternalClient_Batch stub (contextWithTimeout o)
                                              (args c)) with
              | Some reply =>
                  verify_failures (Responses reply) (Requests (args c))
              | None => []
              end)).
Proof.
  intros Hstub Hidx. cbn [run_goroutine]. rewrite Hstub.
  destruct (InternalClient_Batch stub (contextWithTimeout o) (args c))
    as [reply err].
  cbn [fst snd] in *. unfold bind at 1. destruct reply as [reply|].
  - rewrite verify_range_eq by (cbn; apply Hidx; reflexivity).
    reflexivity.
  - cbn. rewrite app_nil_r. reflexivity.
Qed.


(** ** From the factory to the goroutines *)

Lemma session_run_stubs (w0 w : World grpcTransport) (k : nat) :
  session_run w0 k w ->
  (forall c, In c (orderedClients (self w0)) -> client c <> None) ->
  (forall c, In c (allOrderedClients (self w0)) -> client c <> None) ->
  (forall g, In g (goroutines w0) -> has_stub g) ->
  (forall c, In c (orderedClients (self w)) -> client c <> None)
  /\ (forall c, In c (allOrderedClients (self w)) -> client c <> None)
  /\ (forall g, In g (goroutines w) -> has_stub g).
Proof.
  intros Hrun H0 Ha0 Hg0. session_induction Hrun.
  - auto.
  - destruct IH as (IHo & IHa & IHg).
    destruct Hs as (c & Hoc & _ & Ha & _ & _ & _ & Hpath).
    split; [intros c' Hin; apply IHo; rewrite Hoc; right; exact Hin|].
    split; [rewrite Ha; exact IHa|].
    destruct Hpath as [(call & _ & Hg) | (_ & Hg)]; rewrite Hg;
      [exact IHg|].
    intros g Hin. apply in_app_or in Hin as [Hin | [<- | []]];
      [apply IHg, Hin|].
    cbn [has_stub]. apply IHo. rewrite Hoc. left. reflexivity.
  - exact IH.
  - destruct IH as (IHo & IHa & IHg).
    destruct Ht as (Ha & _ & _ & _ & Hg & _ & _ & Hin & _).
    split; [intros c Hc; destruct (Hin c Hc); auto|].
    split; [rewrite Ha; exact IHa | rewrite Hg; exact IHg].
  - exact IH.
  - destruct IH as (IHo & IHa & IHg).
    destruct Hg as (Hs & Hgo & _). cbn [pending self goroutines] in Hs, Hgo.
    rewrite Hs, Hgo. split; [exact IHo|]. split; [exact IHa|].
    intros g' Hin. apply IHg. rewrite Hp.
    apply in_app_or in Hin as [Hin | Hin]; apply in_or_app;
      [left | right; right]; exact Hin.
Qed.

Lemma grpcTransportFactory_stubs (o : SendOptions) (rpcContext : rpc_Context)
    (replicas : ReplicaSlice) (template : BatchRequest) (gt : grpcTransport) :
  fst (grpcTransportFactory o rpcContext replicas template) = Some gt ->
  orderedClients gt = allOrderedClients gt
  /\ forall c, In c (allOrderedClients gt) -> client c <> None.
Proof.
  destruct (first_dial_failure rpcContext replicas)
    as [Hok | (before & replica & after & err & -> & Hb & Hf)];
    unfold grpcTransportFactory.
  - rewrite (grpcTransportFactory_range_dialed _ _ _ Hok).
    cbn [app]. rewrite splitHealthy_eq. cbn [fst].
    intros [= <-]. cbn [orderedClients allOrderedClients].
    split; [reflexivity|]. intros c Hc.
    assert (Hd : In c (dialed rpcContext template replicas)).
    { apply list_elem_of_In. apply list_elem_of_In in Hc.
      rewrite <- (filter_complement_Permutation healthy). exact Hc. }
    apply In_dialed in Hd as (r & _ & _ & _ & Hstub & _).
    rewrite Hstub. discriminate.
  - rewrite (grpcTransportFactory_range_abort _ _ _ _ _ Hf _ _ Hb).
    discriminate.
Qed.

(** X20.  In a session the factory built, whatever the caller does with it,
    every goroutine that [SendNext] starts has a client stub to call: none
    of them panics on a nil client. *)
Theorem grpcTransportFactory_goroutines_have_stub (o : SendOptions)
    (rpcContext : rpc_Context) (replicas : ReplicaSlice)
    (template : BatchRequest) (gt : grpcTransport)
    (sent : list BatchCall) (logged : list error)
    (k : nat) (w : World grpcTransport) :
  fst (grpcTransportFactory o rpcContext replicas template) = Some gt ->
  session_run (mkWorld gt sent [] logged) k w ->
  forall g, In g (goroutines w) ->
    has_stub g
    /\ forall T (v : World T), run_goroutine g v <> Panic NilDereference.
Proof.
  intros Hgt Hrun g Hin.
  apply grpcTransportFactory_stubs in Hgt as [Hfresh Hstubs].
  destruct (session_run_stubs _ _ _ Hrun) as (_ & _ & Hg).
  - cbn [self]. rewrite Hfresh. exact Hstubs.
  - exact Hstubs.
  - intros g' [].
  - specialize (Hg g Hin). split; [exact Hg|].
    intros T v. destruct g as [o' c]. cbn [has_stub run_goroutine] in *.
    destruct (client c) as [stub|]; [|contradiction].
    destruct (InternalClient_Batch stub (contextWithTimeout o') (args c))
      as [reply err].
    unfold bind at 1. destruct reply as [reply|]; [|discriminate].
    destruct (verify_range 0 (Responses reply) (Requests (args c)) v)
      as [[[] v1]|p] eqn:Hv; [discriminate|].
    intros [= ->].
    clear -Hv. revert Hv. generalize 0 at 1. generalize v.
    induction (Responses reply) as [|response responses IH]; intros v0 i;
      cbn [verify_range]; [discriminate|].
    destruct (Requests (args c) !! i) as [request|]; [|discriminate].
    unfold bind at 1.
    destruct (Verify response request) as [e|]; cbn; apply IH.
Qed.

End Transport.

Arguments mkWorld {RequestUnion ResponseUnion ClientConn T}.
Arguments self {RequestUnion ResponseUnion ClientConn T}.
Arguments chan_done {RequestUnion ResponseUnion ClientConn T}.
Arguments goroutines {RequestUnion ResponseUnion ClientConn T}.
Arguments error_log {RequestUnion ResponseUnion ClientConn T}.

(** * The sample sessions *)

Abbreviation session := (@sample_session unit unit unit).
Abbreviation no_verify := (fun (_ _ : unit) => @None error).
Abbreviation replicaA := (mkReplicaDescriptor 1 1 1).
Abbreviation replicaB := (mkReplicaDescriptor 2 2 2).
Abbreviation dialing := (@sample_rpcContext unit unit unit (Some tt)).
Abbreviation stubs := (fun _ : option unit => @mkInternalClient unit unit sample_answer).

(** The scenario of the partitioner: A healthy, B unhealthy, C healthy. *)
Example splitHealthy_ABC :
  @splitHealthy unit unit unit [clientA; clientB; clientC]
  = ([clientA; clientC; clientB], 2).
Proof. reflexivity. Qed.

(** The scenario of the re-insertion: A and B were sent, C remains. *)
Example grpcTransport_TryNext_A_after_sends :
  grpcTransport_TryNext replicaA (session [clientC] [clientA; clientB; clientC])
  = Ok (None, session [clientA] [clientA; clientB; clientC]).
Proof. reflexivity. Qed.

(** C1, on the code.  With A, C and B remaining, [TryNext] of B's replica
    returns no error, and the remaining list is still A, C, B: B has not
    moved to the front. *)
Theorem grpcTransport_TryNext_present_not_moved :
  present replicaB
          (orderedClients (self (session [clientA; clientC; clientB]
                                         [clientA; clientC; clientB])))
  /\ grpcTransport_TryNext replicaB
       (session [clientA; clientC; clientB] [clientA; clientC; clientB])
     = Ok (None, session [clientA; clientC; clientB]
                         [clientA; clientC; clientB])
  /\ @orderedClients unit unit unit
       (self (session [clientA; clientC; clientB] [clientA; clientC; clientB]))
     <> [clientB; clientA; clientC].
Proof.
  split; [|split].
  - exists clientB. cbn. auto.
  - reflexivity.
  - intros H. apply (f_equal (List.map remoteAddr)) in H. discriminate H.
Qed.

Lemma grpcTransport_TryNext_reinsert_witness :
  exists c front last w',
    grpcTransport_TryNext replicaA
      (session [clientB; clientC] [clientA; clientC; clientB])
    = Ok (None, w')
    /\ orderedClients
         (self (session [clientB; clientC] [clientA; clientC; clientB]))
       = front ++ [last]
    /\ In c (allOrderedClients
               (self (session [clientB; clientC]
                              [clientA; clientC; clientB])))
    /\ Replica (args c) = replicaA
    /\ orderedClients (self w') = c :: front
    /\ length (orderedClients (self w'))
       = length (orderedClients
                   (self (session [clientB; clientC]
                                  [clientA; clientC; clientB])))
    /\ allOrderedClients (self w')
       = allOrderedClients
           (self (session [clientB; clientC] [clientA; clientC; clientB]))
    /\ chan_done w'
       = chan_done (session [clientB; clientC] [clientA; clientC; clientB])
    /\ goroutines w'
       = goroutines (session [clientB; clientC] [clientA; clientC; clientB]).
Proof.
  apply (grpcTransport_TryNext_reinsert replicaA
           (session [clientB; clientC] [clientA; clientC; clientB])).
  - discriminate.
  - discriminate.
  - intros (c & [<- | [<- | []]] & Hc); discriminate Hc.
  - exists clientA. split; [left; reflexivity | reflexivity].
Defined.

Lemma grpcTransport_TryNext_exhausted_witness :
  orderedClients (self (session [] [clientA; clientC; clientB])) = []
  /\ grpcTransport_TryNext replicaA (session [] [clientA; clientC; clientB])
     = Ok (Some (errors_New "transport is exhausted"),
           session [] [clientA; clientC; clientB]).
Proof.
  split; [reflexivity|].
  apply (grpcTransport_TryNext_exhausted replicaA
           (session [] [clientA; clientC; clientB])).
  reflexivity.
Defined.

(** C7, as stated, fails on an exhausted session: a zero replica id and an
    unknown replica get the same error there. *)
Lemma grpcTransport_TryNext_failures_alike :
  ~ TryNext_failures_distinguished (session [] [clientA; clientC; clientB]).
Proof.
  intros Hd.
  destruct (Hd (mkReplicaDescriptor 1 1 0) (mkReplicaDescriptor 9 9 9))
    as (err0 & err1 & H0 & H1 & Hne).
  - reflexivity.
  - discriminate.
  - intros (c & [] & _).
  - intros (c & [<- | [<- | [<- | []]]] & Hc); discriminate Hc.
  - cbv in H0, H1. congruence.
Qed.

Lemma grpcTransport_TryNext_failure_witness :
  orderedClients (self (session [clientC] [clientA; clientC; clientB])) <> []
  /\ TryNext_failures_distinguished
       (session [clientC] [clientA; clientC; clientB]).
Proof.
  split; [discriminate|].
  apply (proj1 (proj2 (grpcTransport_TryNext_failure
                         (session [clientC] [clientA; clientC; clientB])))).
  discriminate.
Defined.

Lemma grpcTransport_SendNext_pops_head_witness :
  grpcTransport_IsExhausted (session [clientA; clientC; clientB]
                                     [clientA; clientC; clientB])
  = Ok (false, session [clientA; clientC; clientB] [clientA; clientC; clientB])
  /\ exists c rest w',
       orderedClients (self (session [clientA; clientC; clientB]
                                     [clientA; clientC; clientB]))
       = c :: rest
       /\ grpcTransport_SendNext true
            (session [clientA; clientC; clientB] [clientA; clientC; clientB])
          = Ok (remoteAddr c, w')
       /\ orderedClients (self w') = rest
       /\ S (length (orderedClients (self w')))
          = length (orderedClients
                      (self (session [clientA; clientC; clientB]
                                     [clientA; clientC; clientB])))
       /\ allOrderedClients (self w')
          = allOrderedClients
              (self (session [clientA; clientC; clientB]
                             [clientA; clientC; clientB])).
Proof.
  split; [reflexivity|].
  apply (grpcTransport_SendNext_pops_head true
           (session [clientA; clientC; clientB] [clientA; clientC; clientB])).
  reflexivity.
Defined.

Lemma grpcTransport_IsExhausted_iff_all_sent_witness :
  orderedClients (self (session [clientA; clientC; clientB]
                                [clientA; clientC; clientB]))
  = allOrderedClients (self (session [clientA; clientC; clientB]
                                     [clientA; clientC; clientB]))
  /\ (forall k w,
        run no_verify true
            (session [clientA; clientC; clientB] [clientA; clientC; clientB])
            k w ->
        grpcTransport_IsExhausted w = Ok (k =? 3, w))
  /\ (forall k, k <= 3 ->
        exists w,
          run no_verify true
              (session [clientA; clientC; clientB] [clientA; clientC; clientB])
              k w).
Proof.
  split; [reflexivity|].
  destruct (grpcTransport_IsExhausted_iff_all_sent no_verify true
              (session [clientA; clientC; clientB] [clientA; clientC; clientB])
              eq_refl) as (Hq & Hrun & _).
  split; [exact Hq | exact Hrun].
Defined.

(** A stub that answers one response to a request that holds none. *)
Abbreviation eager_client :=
  (@mkBatchClient unit unit unit "e:26257" None
     (Some (mkInternalClient
              (fun _ _ => (Some (mkBatchResponse None [tt]), None))))
     (mkBatchRequest replicaA []) true).

(** A session whose local handler returns neither a reply nor an error. *)
Abbreviation silent_rpcContext :=
  (@mk_rpc_Context unit unit unit
     (fun _ => (None, None)) (fun _ => true)
     (fun _ => Some (mkInternalServer (fun _ _ => (None, None))))).
Abbreviation silent_session :=
  (@mkWorld unit unit unit _
     (mkGrpcTransport sample_opts silent_rpcContext [clientA] [clientA])
     [] [] []).



(** The same call on the network path, with local calls disabled: nothing
    is on the channel yet, and the goroutine that was started sends one
    call when it runs. *)
Example grpcTransport_SendNext_network_path :
  exists w' g call v',
    grpcTransport_SendNext false
      (session [clientA; clientC; clientB] [clientA; clientC; clientB])
    = Ok ("a:26257", w')
    /\ chan_done w' = []
    /\ goroutines w' = [g]
    /\ run_goroutine no_verify g (pending [] [] w') = Ok (tt, v')
    /\ chan_done v' = [call]
    /\ carries_outcome call.
Proof.
  exists (mkWorld (mkGrpcTransport sample_opts (sample_rpcContext None)
                                   [clientC; clientB]
                                   [clientA; clientC; clientB])
                  [] [go_SendNext sample_opts clientA] []).
  exists (go_SendNext sample_opts clientA).
  exists (mkBatchCall (Some (mkBatchResponse None [])) None).
  eexists. repeat (split; [reflexivity|]). left. discriminate.
Qed.

(** The factory on A, an endpoint with an open breaker, B and C: three
    clients, the unhealthy B last. *)
Example grpcTransportFactory_skips_open :
  option_map (fun gt => List.map remoteAddr (orderedClients gt))
    (fst (grpcTransportFactory stubs sample_opts dialing
            [sample_replica 1 "a:26257"; sample_replica 4 "open:26257";
             sample_replica 2 "b:26257"; sample_replica 3 "c:26257"]
            (@mkBatchRequest unit replicaA [])))
  = Some ["a:26257"; "c:26257"; "b:26257"].
Proof. reflexivity. Qed.

Lemma grpcTransportFactory_dial_errors_witness :
  breaker_open dialing (sample_replica 2 "open:26257")
  /\ grpcTransportFactory stubs
       sample_opts dialing
       [sample_replica 1 "a:26257"; sample_replica 2 "open:26257";
        sample_replica 3 "c:26257"]
       (@mkBatchRequest unit replicaA [])
     = grpcTransportFactory stubs
         sample_opts dialing
         [sample_replica 1 "a:26257"; sample_replica 3 "c:26257"]
         (@mkBatchRequest unit replicaA [])
  /\ dial_fails dialing (sample_replica 2 "down:26257")
                (errors_New "connection refused")
  /\ grpcTransportFactory stubs
       sample_opts dialing
       [sample_replica 1 "a:26257"; sample_replica 2 "down:26257";
        sample_replica 3 "c:26257"]
       (@mkBatchRequest unit replicaA [])
     = (None, Some (errors_New "connection refused")).
Proof.
  assert (Hopen : breaker_open dialing
                               (sample_replica 2 "open:26257")).
  { eexists. split; reflexivity. }
  assert (Hdown : dial_fails dialing
                             (sample_replica 2 "down:26257")
                             (errors_New "connection refused")).
  { split; [reflexivity | discriminate]. }
  destruct (grpcTransportFactory_dial_errors
              stubs sample_opts
              dialing (@mkBatchRequest unit replicaA []))
    as (Hskip & _ & _ & Habort).
  split; [exact Hopen|].
  split; [exact (Hskip [sample_replica 1 "a:26257"] _
                       [sample_replica 3 "c:26257"] Hopen)|].
  split; [exact Hdown|].
  apply (Habort [sample_replica 1 "a:26257"] _ [sample_replica 3 "c:26257"]);
    [|exact Hdown].
  intros r e [<- | []] [Hd _]. discriminate Hd.
Defined.


(** * The further properties on the sample sessions *)

Abbreviation sessionACB :=
  (session [clientA; clientC; clientB] [clientA; clientC; clientB]).
Abbreviation sample_call :=
  (@mkBatchCall unit (Some (mkBatchResponse None [])) None).
Abbreviation after_A :=
  (@mkWorld unit unit unit _
     (@mkGrpcTransport unit unit unit sample_opts (sample_rpcContext None)
                      [clientC; clientB] [clientA; clientC; clientB])
     [sample_call] [] []).

(** One send on the local path, after a [TryNext] that fails. *)
Lemma sample_session_run : session_run no_verify true sessionACB 1 after_A.
Proof.
  eapply session_SendNext with (w := sessionACB) (addr := "a:26257");
    [|reflexivity].
  eapply session_TryNext
    with (replica := mkReplicaDescriptor 9 9 9)
         (err := Some (errors_Errorf "couldn't find client for replica %s"
                                     (mkReplicaDescriptor 9 9 9)));
    [apply session_start | reflexivity].
Qed.

Lemma sample_run : run no_verify true sessionACB 1 after_A.
Proof.
  eapply run_SendNext with (w := sessionACB) (addr := "a:26257");
    [apply run_start | reflexivity].
Qed.

Lemma byHealth_Less_strict_weak_order_witness :
  sort.Less [@clientA unit unit unit; clientB; clientC] 0 1 = true
  /\ sort.Less [@clientA unit unit unit; clientB; clientC] 1 0 = false.
Proof.
  split; [reflexivity|].
  apply (proj1 (proj2 (byHealth_Less_strict_weak_order
                         [@clientA unit unit unit; clientB; clientC]))
               0 1).
  reflexivity.
Defined.

Lemma byHealth_Swap_exchanges_witness :
  [@clientA unit unit unit; clientB; clientC] !! 0 = Some clientA
  /\ [@clientA unit unit unit; clientB; clientC] !! 2 = Some clientC
  /\ sort.Swap [@clientA unit unit unit; clientB; clientC] 0 2 !! 0
     = Some clientC
  /\ sort.Swap (sort.Swap [@clientA unit unit unit; clientB; clientC] 0 2) 0 2
     = [clientA; clientB; clientC].
Proof.
  split; [reflexivity|]. split; [reflexivity|].
  destruct (byHealth_Swap_exchanges
              [@clientA unit unit unit; clientB; clientC] 0 2 clientA clientC
              eq_refl eq_refl) as (H0 & _ & _ & _ & Hback).
  split; [exact H0 | exact Hback].
Defined.

Lemma splitHealthy_partitioned_fixed_witness :
  Forall (fun c => healthy c = true) [@clientA unit unit unit; clientC]
  /\ Forall (fun c => healthy c = false) [@clientB unit unit unit]
  /\ splitHealthy [@clientA unit unit unit; clientC; clientB]
     = ([clientA; clientC; clientB], 2).
Proof.
  assert (HH : Forall (fun c => healthy c = true)
                      [@clientA unit unit unit; clientC])
    by (repeat constructor).
  assert (HU : Forall (fun c => healthy c = false) [@clientB unit unit unit])
    by (repeat constructor).
  split; [exact HH|]. split; [exact HU|].
  exact (proj1 (splitHealthy_partitioned_fixed []) _ _ HH HU).
Defined.

Abbreviation template := (@mkBatchRequest unit replicaA []).
Abbreviation replicas_a_open_b :=
  [sample_replica 1 "a:26257"; sample_replica 4 "open:26257";
   sample_replica 2 "b:26257"].

Lemma grpcTransportFactory_session_witness :
  exists gt : @grpcTransport unit unit unit,
    fst (grpcTransportFactory stubs sample_opts dialing replicas_a_open_b
                              template)
    = Some gt
    /\ orderedClients gt = allOrderedClients gt
    /\ length (allOrderedClients gt) <= 3.
Proof.
  eexists. split; [reflexivity|].
  destruct (grpcTransportFactory_session stubs sample_opts dialing
              replicas_a_open_b template _ eq_refl) as (Hfresh & _ & Hlen & _).
  split; [exact Hfresh | exact Hlen].
Defined.

Lemma grpcTransportFactory_born_exhausted_witness :
  Forall (breaker_open dialing)
         [sample_replica 4 "open:26257"; sample_replica 5 "open:26257"]
  /\ exists gt : @grpcTransport unit unit unit,
       grpcTransportFactory stubs sample_opts dialing
         [sample_replica 4 "open:26257"; sample_replica 5 "open:26257"]
         template
       = (Some gt, None)
       /\ grpcTransport_SendNext true (mkWorld gt [] [] [])
          = Panic IndexOutOfRange.
Proof.
  assert (Hopen : Forall (breaker_open dialing)
            [sample_replica 4 "open:26257"; sample_replica 5 "open:26257"]).
  { repeat constructor; eexists; split; reflexivity. }
  split; [exact Hopen|].
  destruct (grpcTransportFactory_born_exhausted stubs true sample_opts dialing
              _ template Hopen) as (gt & Hgt & Hex).
  exists gt. split; [exact Hgt|]. apply (Hex [] [] []).
Defined.

Lemma session_run_remaining_witness :
  session_run no_verify true sessionACB 1 after_A
  /\ length (orderedClients (self after_A)) + 1
     = length (orderedClients (self sessionACB))
  /\ grpcTransport_IsExhausted after_A = Ok (false, after_A).
Proof.
  split; [exact sample_session_run|].
  destruct (session_run_remaining no_verify true _ _ _ sample_session_run)
    as (Hlen & _ & Hq).
  split; [exact Hlen | exact Hq].
Defined.

Lemma session_run_frame_witness :
  session_run no_verify true sessionACB 1 after_A
  /\ allOrderedClients (self after_A) = allOrderedClients (self sessionACB)
  /\ forall c, In c (orderedClients (self after_A)) ->
               In c (allOrderedClients (self after_A)).
Proof.
  split; [exact sample_session_run|].
  destruct (session_run_frame no_verify true _ _ _ sample_session_run)
    as (Hall & _ & _ & Hin).
  split; [exact Hall|]. apply Hin. intros c Hc. exact Hc.
Defined.

Lemma session_run_NoDup_witness :
  session_run no_verify true sessionACB 1 after_A
  /\ NoDup (replicas_of (orderedClients (self sessionACB)))
  /\ NoDup (replicas_of (orderedClients (self after_A))).
Proof.
  assert (Hnd : NoDup (replicas_of (orderedClients (self sessionACB)))).
  { repeat constructor; rewrite list_elem_of_In; cbn;
      intros H; repeat destruct H as [H | H]; try discriminate H;
      exact H. }
  split; [exact sample_session_run|]. split; [exact Hnd|].
  exact (session_run_NoDup no_verify true _ _ _ sample_session_run Hnd).
Defined.

Lemma session_run_outcomes_witness :
  session_run no_verify true sessionACB 1 after_A
  /\ length (chan_done after_A) + length (goroutines after_A)
     = length (chan_done sessionACB) + length (goroutines sessionACB) + 1.
Proof.
  split; [exact sample_session_run|].
  exact (proj1 (session_run_outcomes no_verify true _ _ _
                                     sample_session_run)).
Defined.

Lemma run_dispatch_order_witness :
  run no_verify true sessionACB 1 after_A
  /\ orderedClients (self after_A) = drop 1 (orderedClients (self sessionACB)).
Proof.
  split; [exact sample_run|].
  exact (proj1 (run_dispatch_order no_verify true _ _ _ sample_run)).
Defined.

Lemma grpcTransport_TryNext_idempotent_witness :
  grpcTransport_TryNext replicaA (session [clientC] [clientA; clientB; clientC])
  = Ok (None, session [clientA] [clientA; clientB; clientC])
  /\ grpcTransport_TryNext replicaA
       (session [clientA] [clientA; clientB; clientC])
     = Ok (None, session [clientA] [clientA; clientB; clientC]).
Proof.
  split; [reflexivity|].
  apply (grpcTransport_TryNext_idempotent replicaA
           (session [clientC] [clientA; clientB; clientC])).
  reflexivity.
Defined.

Lemma grpcTransport_TryNext_then_SendNext_witness :
  exists c front lst w1 w2,
    orderedClients (self (session [clientB; clientC]
                                  [clientA; clientC; clientB]))
    = front ++ [lst]
    /\ grpcTransport_TryNext replicaA
         (session [clientB; clientC] [clientA; clientC; clientB])
       = Ok (None, w1)
    /\ In c (allOrderedClients
               (self (session [clientB; clientC]
                              [clientA; clientC; clientB])))
    /\ Replica (args c) = replicaA
    /\ grpcTransport_SendNext true w1 = Ok (remoteAddr c, w2)
    /\ orderedClients (self w2) = front.
Proof.
  apply (grpcTransport_TryNext_then_SendNext true replicaA
           (session [clientB; clientC] [clientA; clientC; clientB])).
  - discriminate.
  - discriminate.
  - intros (c & [<- | [<- | []]] & Hc); discriminate Hc.
  - exists clientA. split; [left; reflexivity | reflexivity].
Defined.

Lemma senderTransport_single_use_witness :
  ~ embeds_error (Send (@sample_sender unit unit) context_Background template)
  /\ exists st (w1 : @World unit unit unit _),
       SenderTransportFactory sample_sender sample_opts dialing
                              replicas_a_open_b template
       = (Some st, None)
       /\ senderTransport_SendNext (mkWorld st [] [] []) = Ok ("", w1)
       /\ senderTransport_IsExhausted w1 = Ok (true, w1)
       /\ senderTransport_SendNext w1
          = Panic (PanicString "called an exhausted transport").
Proof.
  assert (Hclean : ~ embeds_error (Send (@sample_sender unit unit)
                                        context_Background template)).
  { intros (reply & e & Hr & _). discriminate Hr. }
  split; [exact Hclean|].
  destruct (senderTransport_single_use sample_sender sample_opts dialing
              replicas_a_open_b template [] [] [] Hclean)
    as (st & w1 & Hst & _ & Hsend & _ & _ & Hex & Hpanic).
  exists st, w1. auto.
Defined.

Lemma run_goroutine_delivers_witness :
  client (@clientA unit unit unit) = Some (mkInternalClient sample_answer)
  /\ run_goroutine no_verify (go_SendNext sample_opts clientA)
                   (pending [] [] sessionACB)
     = Ok (tt, mkWorld (self sessionACB) [sample_call] [] []).
Proof.
  split; [reflexivity|].
  apply (run_goroutine_delivers no_verify sample_opts clientA
           (mkInternalClient sample_answer) (pending [] [] sessionACB)
           eq_refl).
  intros reply [= <-]. cbn. lia.
Defined.


Lemma grpcTransportFactory_goroutines_have_stub_witness :
  exists (gt : @grpcTransport unit unit unit) w g,
    fst (grpcTransportFactory stubs sample_opts dialing replicas_a_open_b
                              template)
    = Some gt
    /\ session_run no_verify false (mkWorld gt [] [] []) 1 w
    /\ In g (goroutines w)
    /\ has_stub g.
Proof.
  destruct (grpcTransportFactory stubs sample_opts dialing replicas_a_open_b
                                 template) as [[gt|] err] eqn:Hgt;
    [|discriminate Hgt].
  destruct (grpcTransport_SendNext false (mkWorld gt [] [] []))
    as [[addr w]|p] eqn:Hs; [|injection Hgt as <- _; discriminate Hs].
  assert (Hrun : session_run no_verify false (mkWorld gt [] [] []) 1 w).
  { eapply session_SendNext; [apply session_start | exact Hs]. }
  assert (Hg : exists g, In g (goroutines w)).
  { injection Hgt as <- _. injection Hs as _ <-. eexists. left. reflexivity. }
  destruct Hg as [g Hin]. exists gt, w, g.
  split; [reflexivity|]. split; [exact Hrun|]. split; [exact Hin|].
  apply (grpcTransportFactory_goroutines_have_stub no_verify stubs false
           sample_opts dialing replicas_a_open_b template gt [] [] 1 w).
  - rewrite Hgt. reflexivity.
  - exact Hrun.
  - exact Hin.
Defined.
